(** * libbcc: kernel fusion (RSScriptGroupFusion) and the Compiler header

    A shallow embedding of the kernel-fusion engine ([getFunction],
    [getFusedFuncSig], [getFusedFuncType], [fuseKernels], [renameInvoke]) and
    of the parts of [bcc_compiler.h] that carry behaviour (the mmap image
    constants and [Compiler::readModule]).

    Conventions.
    - [uint32_t] and [int] values are [Z]; the only operation that can leave
      the 32-bit range, the complement [~], has its truncation written out
      in [not32].
    - A pointer that may be null is an [option]; [nullptr] is [None].
    - A [Function*] into a module is the position of the function in the
      module's function list; functions are only ever appended, so positions
      are stable.
    - Code that dereferences null, reads past the end of an array or fails
      an enabled assertion ends in [Stuck]. *)

From Stdlib Require Import ZArith String List Bool Lia Arith.
From Stdlib Require Import DecimalString.
Import ListNotations.

Local Open Scope string_scope.
Local Open Scope list_scope.
Local Open Scope Z_scope.

(** ** Outcomes of a run *)

Inductive Fault : Type :=
| AssertionFailed      (* an enabled bccAssert saw a false condition *)
| UndefinedBehaviour.  (* null dereference, out-of-bounds read, bad cast *)

Inductive Outcome (A : Type) : Type :=
| Done (a : A)
| Stuck (f : Fault).

Arguments Done {A} a.
Arguments Stuck {A} f.

Definition bind {A B : Type} (o : Outcome A) (k : A -> Outcome B) : Outcome B :=
  match o with
  | Done a => k a
  | Stuck f => Stuck f
  end.

Declare Scope outcome_scope.
Delimit Scope outcome_scope with outcome.
Notation "x <- o ;; k" := (bind o (fun x => k))
  (at level 61, o at next level, right associativity) : outcome_scope.
Notation "' p <- o ;; k" := (bind o (fun p => k))
  (at level 61, p pattern, o at next level, right associativity) : outcome_scope.
Local Open Scope outcome_scope.

(** Dereferencing a pointer that may be null. *)
Definition deref {A : Type} (p : option A) : Outcome A :=
  match p with
  | Some a => Done a
  | None => Stuck UndefinedBehaviour
  end.

(** [array[slot]] for a C array indexed by an [int]. *)
Definition at_slot {A : Type} (array : list A) (slot : Z) : Outcome A :=
  if slot <? 0 then Stuck UndefinedBehaviour
  else deref (nth_error array (Z.to_nat slot)).

(** ** 32-bit masks *)

Definition not32 (a : Z) : Z := Z.land (Z.lnot a) 4294967295.

Definition is_uint32 (a : Z) : Prop := 0 <= a < 4294967296.

(** The signature bit values of [bcinfo::MetadataSignatureBitval].  The enum
    is declared in bcinfo/MetadataExtractor.h, which is not among the
    sources, so the values are parameters of the development. *)
Class MetadataSignatureBitval : Type := {
  MD_SIG_In : Z;
  MD_SIG_Out : Z;
  MD_SIG_X : Z;
  MD_SIG_Y : Z;
  MD_SIG_Z : Z;
  MD_SIG_Kernel : Z
}.

(** What the proofs need of the enum: its members are 32-bit values, and the
    input and output flags share no bit with each other or with any of the
    coordinate and kernel flags. *)
Class SignatureBitsDisjoint (bits : MetadataSignatureBitval) : Prop := {
  In_uint32 : is_uint32 MD_SIG_In;
  Out_uint32 : is_uint32 MD_SIG_Out;
  X_uint32 : is_uint32 MD_SIG_X;
  Y_uint32 : is_uint32 MD_SIG_Y;
  Z_uint32 : is_uint32 MD_SIG_Z;
  Kernel_uint32 : is_uint32 MD_SIG_Kernel;
  In_Out : Z.land MD_SIG_In MD_SIG_Out = 0;
  In_X : Z.land MD_SIG_In MD_SIG_X = 0;
  In_Y : Z.land MD_SIG_In MD_SIG_Y = 0;
  In_Z : Z.land MD_SIG_In MD_SIG_Z = 0;
  In_Kernel : Z.land MD_SIG_In MD_SIG_Kernel = 0;
  Out_X : Z.land MD_SIG_Out MD_SIG_X = 0;
  Out_Y : Z.land MD_SIG_Out MD_SIG_Y = 0;
  Out_Z : Z.land MD_SIG_Out MD_SIG_Z = 0;
  Out_Kernel : Z.land MD_SIG_Out MD_SIG_Kernel = 0
}.

(** ** The IR objects the fusion code builds *)

Inductive LType : Type :=
| VoidTy
| IntegerTy (bits : Z)
| OtherTy (id : nat).   (* any other first-class type, e.g. a pixel type *)

Record FunctionType : Type := mkFunctionType {
  ftReturn : LType;
  ftParams : list LType     (* never variadic here: isVarArg = false *)
}.

(** Values a call in the function under construction can mention. *)
Inductive Value : Type :=
| Arg (i : nat)      (* the i-th formal parameter *)
| Inst (i : nat).    (* the result of the i-th instruction of the block *)

Inductive Instruction : Type :=
| CallInst (callee : nat) (args : list (option Value))
| RetVoid
| Ret (v : option Value).

Record BasicBlock : Type := mkBasicBlock {
  bbName : string;
  bbInsts : list Instruction
}.

Record Function : Type := mkFunction {
  fName : string;
  fReturnType : LType;
  fArgs : list (LType * string);      (* type and name of each parameter *)
  fBlocks : list BasicBlock
}.

Record Module : Type := mkModule {
  functions : list Function;
  namedMetadata : list (string * list string)
    (* each named node with its operands, every operand one MDString *)
}.

Definition LType_eqb (a b : LType) : bool :=
  match a, b with
  | VoidTy, VoidTy => true
  | IntegerTy n, IntegerTy m => n =? m
  | OtherTy i, OtherTy j => Nat.eqb i j
  | _, _ => false
  end.

Fixpoint LTypes_eqb (l1 l2 : list LType) : bool :=
  match l1, l2 with
  | [], [] => true
  | a :: l1', b :: l2' => LType_eqb a b && LTypes_eqb l1' l2'
  | _, _ => false
  end.

Definition FunctionType_eqb (s t : FunctionType) : bool :=
  LType_eqb (ftReturn s) (ftReturn t) && LTypes_eqb (ftParams s) (ftParams t).

Definition getFunctionType (f : Function) : FunctionType :=
  mkFunctionType (fReturnType f) (map fst (fArgs f)).

Definition isVoidTy (t : LType) : bool :=
  match t with VoidTy => true | _ => false end.

(** ** The metadata view of a source

    Modelled from the spec: [bcinfo::MetadataExtractor] (the "Metadata View")
    is not among the sources.  Per the spec it yields, per kernel slot, the
    exported kernel name, its input count and its signature mask, and the
    exported plain-function names; extraction can fail.  A name entry is a
    [const char*] and may be null. *)
Record MetadataExtractor : Type := mkMetadata {
  getExportForEachNameList : list (option string);
  getExportForEachInputCountList : list Z;
  getExportForEachSignatureList : list Z;
  getExportFuncNameList : list (option string)
}.

(** A [Source] as the fusion code sees it: the result of running the
    extractor on its module; [None] when [extract()] fails, in which case
    the lists are null. *)
Record Source : Type := mkSource {
  extract : option MetadataExtractor
}.

(** ** Lists updated in place *)

Fixpoint list_update {A : Type} (l : list A) (n : nat) (g : A -> A) : list A :=
  match l, n with
  | [], _ => []
  | a :: l', O => g a :: l'
  | a :: l', S n' => a :: list_update l' n' g
  end.

Definition remove_nth {A : Type} (n : nat) (l : list A) : list A :=
  firstn n l ++ skipn (S n) l.

Definition last_error {A : Type} (l : list A) : option A := hd_error (rev l).

Definition isSome {A : Type} (p : option A) : bool :=
  match p with Some _ => true | None => false end.

(** ** The parts of the LLVM API the fusion code calls

    LLVM is an external library; the operations below record what the calls
    made by the source do to a module. *)

Fixpoint findFunction (fs : list Function) (name : string) : option nat :=
  match fs with
  | [] => None
  | f :: fs' =>
      if String.eqb (fName f) name then Some O
      else option_map S (findFunction fs' name)
  end.

(** [Module::getFunction]: lookup in the symbol table, which holds no
    unnamed function. *)
Definition Module_getFunction (M : Module) (name : string) : option nat :=
  if String.eqb name "" then None else findFunction (functions M) name.

(** Reading through a [Function*]. *)
Definition functionAt (M : Module) (F : nat) : Outcome Function :=
  deref (nth_error (functions M) F).

Definition updateFunction (M : Module) (F : nat) (g : Function -> Function)
  : Module :=
  mkModule (list_update (functions M) F g) (namedMetadata M).

Definition appendToBlock (insts : list Instruction) (blk : BasicBlock)
  : BasicBlock :=
  mkBasicBlock (bbName blk) (bbInsts blk ++ insts).

Definition appendInsts (M : Module) (F block : nat) (insts : list Instruction)
  : Module :=
  updateFunction M F (fun f =>
    mkFunction (fName f) (fReturnType f) (fArgs f)
               (list_update (fBlocks f) block (appendToBlock insts))).

(** The instructions of [block] of [F], if there is such a block. *)
Definition blockInsts (M : Module) (F block : nat)
  : option (list Instruction) :=
  match nth_error (functions M) F with
  | None => None
  | Some f => option_map bbInsts (nth_error (fBlocks f) block)
  end.

Definition blockSize (M : Module) (F block : nat) : nat :=
  match blockInsts M F block with
  | None => O
  | Some insts => length insts
  end.

(** [IRBuilder::CreateCall] with the insertion point at the end of [block]
    of [F]: the call is appended, and the new instruction is its own result
    value. *)
Definition CreateCall (M : Module) (F block : nat) (callee : nat)
    (args : list (option Value)) : option Value * Module :=
  (Some (Inst (blockSize M F block)),
   appendInsts M F block [CallInst callee args]).

Definition CreateRetVoid (M : Module) (F block : nat) : Module :=
  appendInsts M F block [RetVoid].

Definition CreateRet (M : Module) (F block : nat) (v : option Value) : Module :=
  appendInsts M F block [Ret v].

Fixpoint getNamedMetadata (md : list (string * list string)) (name : string)
  : option (list string) :=
  match md with
  | [] => None
  | (n, ops) :: md' =>
      if String.eqb n name then Some ops else getNamedMetadata md' name
  end.

Fixpoint addOperandTo (md : list (string * list string)) (name op : string)
  : list (string * list string) :=
  match md with
  | [] => [(name, [op])]
  | (n, ops) :: md' =>
      if String.eqb n name then (n, ops ++ [op]) :: md'
      else (n, ops) :: addOperandTo md' name op
  end.

(** [getOrInsertNamedMetadata(name)->addOperand(MDNode::get(MDString::get(op)))]:
    the node is created empty when the module has none of that name, and the
    operand goes to its end. *)
Definition addNamedOperand (M : Module) (name op : string) : Module :=
  mkModule (functions M) (addOperandTo (namedMetadata M) name op).

(** The operands of a named node, none when the node does not exist. *)
Definition operandsOf (M : Module) (name : string) : list string :=
  match getNamedMetadata (namedMetadata M) name with
  | Some ops => ops
  | None => []
  end.

(** [llvm::utostr_32]: the decimal digits of a 32-bit unsigned value. *)
Definition utostr_32 (X : Z) : string :=
  NilZero.string_of_uint (N.to_uint (Z.to_N X)).

(** ** RSScriptGroupFusion.cpp *)

Section Fusion.

Context {bits : MetadataSignatureBitval}.

(** Whether the build defines away [bccAssert].  The macro lives in
    bcc/Assert.h, which is not among the sources: it either stops the
    process on a false condition or compiles to nothing. *)
Variable disableAsserts : bool.

(** How LLVM's symbol tables rename a value whose wanted name is taken. *)
Variable uniqueName : list string -> string -> string.

Definition bccAssert (cond : bool) : Outcome unit :=
  if cond || disableAsserts then Done tt else Stuck AssertionFailed.

Definition pickName (taken : list string) (name : string) : string :=
  if String.eqb name "" then ""
  else if existsb (String.eqb name) taken then uniqueName taken name
  else name.

(** [Module::getOrInsertFunction].  A function of that name and type is
    returned as it is; one of another type comes back wrapped in a bitcast
    constant, which the source casts to [Function*] all the same. *)
Definition getOrInsertFunction (M : Module) (name : string)
    (Ty : FunctionType) : Outcome (nat * Module) :=
  match Module_getFunction M name with
  | None =>
      let New := mkFunction name (ftReturn Ty)
                   (map (fun t => (t, "")) (ftParams Ty)) [] in
      Done (length (functions M),
            mkModule (functions M ++ [New]) (namedMetadata M))
  | Some F =>
      fn <- functionAt M F ;;
      if FunctionType_eqb (getFunctionType fn) Ty then Done (F, M)
      else Stuck UndefinedBehaviour
  end.

(** [Function::Create(Ty, ExternalLinkage, name, module)]: always a new
    function, at the end of the module's list. *)
Definition Function_Create (Ty : FunctionType) (name : string) (M : Module)
  : nat * Module :=
  let New := mkFunction (pickName (map fName (functions M)) name)
               (ftReturn Ty) (map (fun t => (t, "")) (ftParams Ty)) [] in
  (length (functions M), mkModule (functions M ++ [New]) (namedMetadata M)).

(** [BasicBlock::Create(ctxt, name, F)]: a new empty block at the end of
    [F]. *)
Definition BasicBlock_Create (name : string) (F : nat) (M : Module)
  : Outcome (nat * Module) :=
  fn <- functionAt M F ;;
  let taken := map snd (fArgs fn) ++ map bbName (fBlocks fn) in
  let block := mkBasicBlock (pickName taken name) [] in
  Done (length (fBlocks fn),
        updateFunction M F (fun f =>
          mkFunction (fName f) (fReturnType f) (fArgs f)
                     (fBlocks f ++ [block]))).

(** [Value::setName] on the [i]-th argument of [F]. *)
Definition Argument_setName (M : Module) (F i : nat) (name : string)
  : Module :=
  updateFunction M F (fun f =>
    let taken := map snd (remove_nth i (fArgs f)) ++ map bbName (fBlocks f) in
    mkFunction (fName f) (fReturnType f)
               (list_update (fArgs f) i
                  (fun a => (fst a, pickName taken name)))
               (fBlocks f)).

(** Modelled from the spec: the helper predicates of the Metadata View that
    test individual signature bits (bcinfo/MetadataExtractor.h is not among
    the sources). *)
Definition hasForEachSignatureIn (sig : Z) : bool :=
  negb (Z.land sig MD_SIG_In =? 0).
Definition hasForEachSignatureOut (sig : Z) : bool :=
  negb (Z.land sig MD_SIG_Out =? 0).
Definition hasForEachSignatureX (sig : Z) : bool :=
  negb (Z.land sig MD_SIG_X =? 0).
Definition hasForEachSignatureY (sig : Z) : bool :=
  negb (Z.land sig MD_SIG_Y =? 0).
Definition hasForEachSignatureZ (sig : Z) : bool :=
  negb (Z.land sig MD_SIG_Z =? 0).

Definition getInvokeFunction (source : Source) (slot : Z) (newModule : Module)
  : Outcome (option nat) :=
  match extract source with
  | None => Done None
  | Some metadata =>
      functionName <- at_slot (getExportFuncNameList metadata) slot ;;
      (* a StringRef is built from the char pointer *)
      functionName <- deref functionName ;;
      let func := Module_getFunction newModule functionName in
      (* materialize() does not change what the model records *)
      Done func
  end.

(** [getFunction]; [wantSignature] is [signature != nullptr], and the first
    component of the result is what was stored through [signature]. *)
Definition getFunction (mergedModule : Module) (source : Source) (slot : Z)
    (wantSignature : bool) : Outcome (option Z * option nat) :=
  metadata <- deref (extract source) ;;
  functionName <- at_slot (getExportForEachNameList metadata) slot ;;
  match functionName with
  | None => Done (None, None)
  | Some functionName =>
      if String.eqb functionName "" then Done (None, None)
      else
        count <- at_slot (getExportForEachInputCountList metadata) slot ;;
        if count >? 1 then Done (None, None)
        else
          signature <-
            (if wantSignature
             then s <- at_slot (getExportForEachSignatureList metadata) slot ;;
                  Done (Some s)
             else Done None) ;;
          let function := Module_getFunction mergedModule functionName in
          Done (signature, function)
  end.

Definition ExpectedSignatureBits : Z :=
  Z.lor (Z.lor (Z.lor (Z.lor (Z.lor MD_SIG_In MD_SIG_Out) MD_SIG_X) MD_SIG_Y)
           MD_SIG_Z) MD_SIG_Kernel.

(** The loop of [getFusedFuncSig] from a given iteration on, followed by the
    code after the loop.  The result is the returned [int] and [*retSig]. *)
Fixpoint getFusedFuncSig_from (sources : list Source) (slots : list Z)
    (retSig firstSignature signature : Z) : Outcome (Z * Z) :=
  match sources with
  | [] =>
      let retSig :=
        if negb (hasForEachSignatureIn firstSignature)
        then Z.land retSig (not32 MD_SIG_In) else retSig in
      let retSig :=
        if negb (hasForEachSignatureOut signature)
        then Z.land retSig (not32 MD_SIG_Out) else retSig in
      Done (0, retSig)
  | source :: sources' =>
      slot <- deref (hd_error slots) ;;
      metadata <- deref (extract source) ;;
      count <- at_slot (getExportForEachInputCountList metadata) slot ;;
      if count >? 1 then Done (-1, retSig)
      else
        signature <- at_slot (getExportForEachSignatureList metadata) slot ;;
        if negb (Z.land signature (not32 ExpectedSignatureBits) =? 0)
        then Done (-1, retSig)
        else
          let firstSignature :=
            if firstSignature =? 0 then signature else firstSignature in
          let retSig := Z.lor retSig signature in
          getFusedFuncSig_from sources' (tl slots)
            retSig firstSignature signature
  end.

Definition getFusedFuncSig (sources : list Source) (slots : list Z)
  : Outcome (Z * Z) :=
  getFusedFuncSig_from sources slots 0 0 0.

Definition getFusedFuncType (sources : list Source) (slots : list Z)
    (M : Module) : Outcome (option FunctionType * Z) :=
  '(error, signature) <- getFusedFuncSig sources slots ;;
  if error <? 0 then Done (None, signature)
  else
    front <- deref (hd_error sources) ;;
    frontSlot <- deref (hd_error slots) ;;
    '(_, firstF) <- getFunction M front frontSlot false ;;
    _ <- bccAssert (isSome firstF) ;;
    ArgTys <-
      (if hasForEachSignatureIn signature
       then F <- deref firstF ;;
            fn <- functionAt M F ;;
            arg <- deref (hd_error (fArgs fn)) ;;
            Done [fst arg]
       else Done []) ;;
    let I32Ty := IntegerTy 32 in
    let ArgTys :=
      if hasForEachSignatureX signature then ArgTys ++ [I32Ty] else ArgTys in
    let ArgTys :=
      if hasForEachSignatureY signature then ArgTys ++ [I32Ty] else ArgTys in
    let ArgTys :=
      if hasForEachSignatureZ signature then ArgTys ++ [I32Ty] else ArgTys in
    back <- deref (last_error sources) ;;
    backSlot <- deref (last_error slots) ;;
    '(_, lastF) <- getFunction M back backSlot false ;;
    _ <- bccAssert (isSome lastF) ;;
    F <- deref lastF ;;
    fn <- functionAt M F ;;
    let retTy := fReturnType fn in
    Done (Some (mkFunctionType retTy ArgTys), signature).

(** [v = argIter++; v->setName(name)] *)
Definition nextArgument (F : nat) (name : string) (argIter : nat)
    (M : Module) : option Value * nat * Module :=
  (Some (Arg argIter), S argIter, Argument_setName M F argIter name).

(** The loop over the chain in [fuseKernels].  The boolean tells whether the
    loop ran to its end ([true]) or left the function through
    [return false]. *)
Fixpoint fuseKernels_loop (fusedKernel block : nat) (X Y Z' : option Value)
    (sources : list Source) (slots : list Z)
    (dataElement : option Value) (mergedModule : Module)
  : Outcome (bool * option Value * Module) :=
  match sources with
  | [] => Done (true, dataElement, mergedModule)
  | source :: sources' =>
      slot <- deref (hd_error slots) ;;
      '(signature, function) <- getFunction mergedModule source slot true ;;
      match function with
      | None => Done (false, dataElement, mergedModule)
      | Some function =>
          (* the local was assigned on every path that yields a function *)
          signature <- deref signature ;;
          let args := [] in
          let args :=
            if isSome dataElement then args ++ [dataElement] else args in
          let args :=
            if hasForEachSignatureX signature then args ++ [X] else args in
          let args :=
            if hasForEachSignatureY signature then args ++ [Y] else args in
          let args :=
            if hasForEachSignatureZ signature then args ++ [Z'] else args in
          let '(dataElement, mergedModule) :=
            CreateCall mergedModule fusedKernel block function args in
          fuseKernels_loop fusedKernel block X Y Z' sources' (tl slots)
            dataElement mergedModule
      end
  end.

Definition fuseKernels (sources : list Source) (slots : list Z)
    (fusedName : string) (mergedModule : Module) : Outcome (bool * Module) :=
  _ <- bccAssert (Nat.eqb (length sources) (length slots)) ;;
  '(fusedType, signature) <- getFusedFuncType sources slots mergedModule ;;
  match fusedType with
  | None => Done (false, mergedModule)
  | Some fusedType =>
      '(fusedKernel, mergedModule) <-
        getOrInsertFunction mergedModule fusedName fusedType ;;
      '(block, mergedModule) <-
        BasicBlock_Create "entry" fusedKernel mergedModule ;;
      let argIter := O in
      let '(dataElement, argIter, mergedModule) :=
        if hasForEachSignatureIn signature
        then nextArgument fusedKernel "DataIn" argIter mergedModule
        else (None, argIter, mergedModule) in
      let '(X, argIter, mergedModule) :=
        if hasForEachSignatureX signature
        then nextArgument fusedKernel "x" argIter mergedModule
        else (None, argIter, mergedModule) in
      let '(Y, argIter, mergedModule) :=
        if hasForEachSignatureY signature
        then nextArgument fusedKernel "y" argIter mergedModule
        else (None, argIter, mergedModule) in
      let '(Z', argIter, mergedModule) :=
        if hasForEachSignatureZ signature
        then nextArgument fusedKernel "z" argIter mergedModule
        else (None, argIter, mergedModule) in
      '(finished, dataElement, mergedModule) <-
        fuseKernels_loop fusedKernel block X Y Z' sources slots
          dataElement mergedModule ;;
      if negb finished then Done (false, mergedModule)
      else
        fn <- functionAt mergedModule fusedKernel ;;
        let mergedModule :=
          if isVoidTy (fReturnType fn)
          then CreateRetVoid mergedModule fusedKernel block
          else CreateRet mergedModule fusedKernel block dataElement in
        let mergedModule :=
          addNamedOperand mergedModule "#rs_export_foreach_name" fusedName in
        let mergedModule :=
          addNamedOperand mergedModule "#rs_export_foreach"
            (utostr_32 signature) in
        Done (true, mergedModule)
  end.

Definition renameInvoke (source : Source) (slot : Z) (newName : string)
    (module : Module) : Outcome (bool * Module) :=
  F <- getInvokeFunction source slot module ;;
  F <- deref F ;;
  fn <- functionAt module F ;;
  let params := map fst (fArgs fn) in
  let returnTy := fReturnType fn in
  let batchFuncTy := mkFunctionType returnTy params in
  let '(newF, module) := Function_Create batchFuncTy newName module in
  '(block, module) <- BasicBlock_Create "entry" newF module ;;
  newFn <- functionAt module newF ;;
  (* arg1 = argIter++ reads the first formal of newF *)
  _ <- deref (hd_error (fArgs newFn)) ;;
  let arg1 := Some (Arg O) in
  let '(_, module) := CreateCall module newF block F [arg1] in
  let module := CreateRetVoid module newF block in
  let module := addNamedOperand module "#rs_export_func" newName in
  Done (true, module).

End Fusion.

(** ** bcc_compiler.h *)

Definition BCC_MMAP_IMG_BEGIN : Z := 0x7e000000.
Definition BCC_MMAP_IMG_COUNT : Z := 5.

Definition BCC_MMAP_IMG_CODE_SIZE : Z := 128 * 1024.
Definition BCC_MMAP_IMG_DATA_SIZE : Z := 128 * 1024.
Definition BCC_MMAP_IMG_SIZE : Z :=
  BCC_MMAP_IMG_CODE_SIZE + BCC_MMAP_IMG_DATA_SIZE.

(** The static members of [Compiler] the header gives a shape to.  The
    occupancy table is declared [bool BccMmapImgAddrTaken[BCC_MMAP_IMG_COUNT]]:
    its length is part of its type. *)
Record Statics : Type := mkStatics {
  GlobalInitialized : bool;
  BccMmapImgAddrTaken :
    { taken : list bool | length taken = Z.to_nat BCC_MMAP_IMG_COUNT };
  Triple : string;
  CPU : string;
  Features : list string
}.

(** The data members of a [Compiler] instance that hold plain values. *)
Record Compiler : Type := mkCompiler {
  mError : string;
  mUseCache : bool;
  mCacheNew : bool;
  mCacheFd : Z;
  mPragmas : list (string * string);
  mModule : option Module;
  mHasLinked : bool
}.

Definition hasError (this : Compiler) : bool :=
  negb (String.eqb (mError this) "").

Definition setError (Error : string) (this : Compiler) : Compiler :=
  mkCompiler Error (mUseCache this) (mCacheNew this) (mCacheFd this)
             (mPragmas this) (mModule this) (mHasLinked this).

Definition getModule (this : Compiler) : option Module := mModule this.

Section CompilerMethods.

(** The one-time work of the backend initialization on the static members
    (target triple, CPU, features); its code is in the implementation file,
    which is not among the sources. *)
Variable initializeBackend : Statics -> Statics.

(** Modelled from the spec: [Compiler::GlobalInitialization] is only declared
    in the header.  Per the spec it is "initialized once and never
    re-initialized, guarded against double-init": the flag is tested first
    and set by the first call. *)
Definition GlobalInitialization (s : Statics) : Statics :=
  if GlobalInitialized s then s
  else
    let s' := initializeBackend s in
    mkStatics true (BccMmapImgAddrTaken s') (Triple s') (CPU s') (Features s').

(** [int readModule(llvm::Module *module)]; the [bool] of [hasError()] is
    converted to [int]. *)
Definition readModule (module : option Module) (this : Compiler)
    (s : Statics) : Z * Compiler * Statics :=
  let s := GlobalInitialization s in
  let this := mkCompiler (mError this) (mUseCache this) (mCacheNew this)
                (mCacheFd this) (mPragmas this) module (mHasLinked this) in
  ((if hasError this then 1 else 0), this, s).

End CompilerMethods.

(** ** Vocabulary of the statements *)

(** A member of a fusion chain: a source and a kernel slot.  A chain
    [chain] reaches the code as [map fst chain] and [map snd chain]. *)
Abbreviation Member := (Source * Z)%type (only parsing).

Section Vocabulary.

Context {bits : MetadataSignatureBitval}.


(** What the metadata view says about a member: the kernel's name, input
    count and signature mask; [None] when extraction failed or the slot is
    outside one of the lists. *)
Definition kernelAt (k : Member) : option (option string * Z * Z) :=
  match extract (fst k) with
  | None => None
  | Some md =>
      if snd k <? 0 then None
      else
        match nth_error (getExportForEachNameList md) (Z.to_nat (snd k)),
              nth_error (getExportForEachInputCountList md) (Z.to_nat (snd k)),
              nth_error (getExportForEachSignatureList md) (Z.to_nat (snd k))
        with
        | Some name, Some count, Some sig => Some (name, count, sig)
        | _, _, _ => None
        end
  end.

Definition validSlot (k : Member) : Prop := kernelAt k <> None.

Definition nameOf (k : Member) : option string :=
  match kernelAt k with Some (name, _, _) => name | None => None end.

Definition inputCountOf (k : Member) : Z :=
  match kernelAt k with Some (_, count, _) => count | None => 0 end.

Definition signatureOf (k : Member) : Z :=
  match kernelAt k with Some (_, _, sig) => sig | None => 0 end.

(** The member's underlying function in a module. *)
Definition resolve (M : Module) (k : Member) : option nat :=
  match nameOf k with
  | Some name => Module_getFunction M name
  | None => None
  end.

Definition functionOf (M : Module) (k : Member) : option Function :=
  match resolve M k with
  | Some F => nth_error (functions M) F
  | None => None
  end.

(** Some bit of the 32 is set in [sig] and belongs to none of the six
    supported flags. *)
Definition hasBitOutside (sig : Z) : Prop :=
  exists i, 0 <= i < 32 /\ Z.testbit sig i = true /\
    Z.testbit MD_SIG_In i = false /\ Z.testbit MD_SIG_Out i = false /\
    Z.testbit MD_SIG_X i = false /\ Z.testbit MD_SIG_Y i = false /\
    Z.testbit MD_SIG_Z i = false /\ Z.testbit MD_SIG_Kernel i = false.

(** A kernel the fusion path supports. *)
Definition supported (k : Member) : Prop :=
  inputCountOf k <= 1 /\
  Z.land (signatureOf k) (not32 ExpectedSignatureBits) = 0.

(** A mask declares a flag when it shares a bit with it. *)
Definition declares (sig flag : Z) : Prop := Z.land sig flag <> 0.

(** The value the variable [firstSignature] of [getFusedFuncSig] ends
    with: the signature of the first member whose signature is not 0. *)
Fixpoint firstNonzeroSignature (chain : list Member) : Z :=
  match chain with
  | [] => 0
  | k :: rest =>
      if signatureOf k =? 0 then firstNonzeroSignature rest
      else signatureOf k
  end.

(** The parameters of the fused function come in the fixed order
    [input, x, y, z], each present when the combined mask keeps its bit. *)
Definition xIndex (sig : Z) : nat :=
  if hasForEachSignatureIn sig then 1%nat else 0%nat.
Definition yIndex (sig : Z) : nat :=
  (xIndex sig + if hasForEachSignatureX sig then 1 else 0)%nat.
Definition zIndex (sig : Z) : nat :=
  (yIndex sig + if hasForEachSignatureY sig then 1 else 0)%nat.

Definition fusedParamTypes (sig : Z) (inputTy : list LType) : list LType :=
  (if hasForEachSignatureIn sig then inputTy else []) ++
  (if hasForEachSignatureX sig then [IntegerTy 32] else []) ++
  (if hasForEachSignatureY sig then [IntegerTy 32] else []) ++
  (if hasForEachSignatureZ sig then [IntegerTy 32] else []).

(** The coordinate arguments a kernel of mask [own] receives inside a fused
    function of combined mask [sig]. *)
Definition coordinateArgs (sig own : Z) : list (option Value) :=
  (if hasForEachSignatureX own then [Some (Arg (xIndex sig))] else []) ++
  (if hasForEachSignatureY own then [Some (Arg (yIndex sig))] else []) ++
  (if hasForEachSignatureZ own then [Some (Arg (zIndex sig))] else []).

(** The running value handed to the [i]-th call: the fused input, when the
    fused function has one, for the first call; the result of the call
    before it for every later one. *)
Definition runningValue (sig : Z) (i : nat) : list (option Value) :=
  match i with
  | O => if hasForEachSignatureIn sig then [Some (Arg O)] else []
  | S j => [Some (Inst j)]
  end.


(** The values bound to the parameters the combined mask keeps. *)
Definition inputValue (sig : Z) : option Value :=
  if hasForEachSignatureIn sig then Some (Arg O) else None.
Definition xValue (sig : Z) : option Value :=
  if hasForEachSignatureX sig then Some (Arg (xIndex sig)) else None.
Definition yValue (sig : Z) : option Value :=
  if hasForEachSignatureY sig then Some (Arg (yIndex sig)) else None.
Definition zValue (sig : Z) : option Value :=
  if hasForEachSignatureZ sig then Some (Arg (zIndex sig)) else None.

(** The calls the chain loop emits, read off the chain alone: [res] tells
    the function of each member, [n] is the number of the next instruction.
    The boolean is false when a member without a function stopped the walk;
    the last component is the value the walk ends with. *)
Fixpoint chainCalls (res : Member -> option nat) (X Y Z' : option Value)
    (chain : list Member) (dataElement : option Value) (n : nat)
  : list Instruction * bool * option Value :=
  match chain with
  | [] => ([], true, dataElement)
  | k :: rest =>
      match res k with
      | None => ([], false, dataElement)
      | Some callee =>
          let args :=
            (if isSome dataElement then [dataElement] else []) ++
            (if hasForEachSignatureX (signatureOf k) then [X] else []) ++
            (if hasForEachSignatureY (signatureOf k) then [Y] else []) ++
            (if hasForEachSignatureZ (signatureOf k) then [Z'] else []) in
          let '(calls, finished, last) :=
            chainCalls res X Y Z' rest (Some (Inst n)) (S n) in
          (CallInst callee args :: calls, finished, last)
      end
  end.

(** Two functions that differ at most in the names of their parameters. *)
Definition sameButArgNames (f f' : Function) : Prop :=
  fName f' = fName f /\ fReturnType f' = fReturnType f /\
  map fst (fArgs f') = map fst (fArgs f) /\ fBlocks f' = fBlocks f.

End Vocabulary.

Section Staging.

Context {bits : MetadataSignatureBitval}.
Variable uniqueName : list string -> string -> string.

(** The effect on the module of the four blocks of [fuseKernels] that bind
    and name the parameters of the fused function. *)
Definition nameArguments (sig : Z) (F : nat) (M : Module) : Module :=
  let M :=
    if hasForEachSignatureIn sig
    then Argument_setName uniqueName M F O "DataIn" else M in
  let M :=
    if hasForEachSignatureX sig
    then Argument_setName uniqueName M F (xIndex sig) "x" else M in
  let M :=
    if hasForEachSignatureY sig
    then Argument_setName uniqueName M F (yIndex sig) "y" else M in
  if hasForEachSignatureZ sig
  then Argument_setName uniqueName M F (zIndex sig) "z" else M.

(** [fuseKernels] from the naming of the parameters on. *)
Definition fuseKernels_body (sources : list Source) (slots : list Z)
    (fusedName : string) (signature : Z) (fusedKernel block : nat)
    (mergedModule : Module) : Outcome (bool * Module) :=
  '(finished, dataElement, mergedModule) <-
    fuseKernels_loop fusedKernel block
      (xValue signature) (yValue signature) (zValue signature)
      sources slots (inputValue signature)
      (nameArguments signature fusedKernel mergedModule) ;;
  if negb finished then Done (false, mergedModule)
  else
    fn <- functionAt mergedModule fusedKernel ;;
    let mergedModule :=
      if isVoidTy (fReturnType fn)
      then CreateRetVoid mergedModule fusedKernel block
      else CreateRet mergedModule fusedKernel block dataElement in
    let mergedModule :=
      addNamedOperand mergedModule "#rs_export_foreach_name" fusedName in
    let mergedModule :=
      addNamedOperand mergedModule "#rs_export_foreach"
        (utostr_32 signature) in
    Done (true, mergedModule).

End Staging.

(** ** Concrete data for the runs below *)

(** The values the enum has in bcinfo. *)
Definition bcinfo_bits : MetadataSignatureBitval :=
  {| MD_SIG_In := 0x01; MD_SIG_Out := 0x02; MD_SIG_X := 0x08;
     MD_SIG_Y := 0x10; MD_SIG_Z := 0x40; MD_SIG_Kernel := 0x20 |}.

Definition suffixed (taken : list string) (name : string) : string :=
  String.append name ".1".

Definition defined (name : string) (ret : LType) (params : list LType)
  : Function :=
  mkFunction name ret (map (fun t => (t, "")) params)
             [mkBasicBlock "body" []].

(** A merged module with a dummy root, three kernels over a pixel type
    [OtherTy 4], and two invokable functions. *)
Definition mergedExample : Module :=
  mkModule
    [ defined "root" VoidTy [];
      defined "blur" (OtherTy 4) [OtherTy 4; IntegerTy 32];
      defined "gray" (OtherTy 4) [OtherTy 4];
      defined "tint" (OtherTy 4) [IntegerTy 32];
      defined "setup" VoidTy [OtherTy 9; IntegerTy 32];
      defined "reset" VoidTy [] ]
    [ ("#rs_export_foreach_name", ["root"; "blur"; "gray"; "tint"]);
      ("#rs_export_foreach", ["0"; "43"; "35"; "42"]);
      ("#rs_export_func", ["setup"; "reset"]) ].

(** Its source: slot 4 names a kernel the merged module lacks, slot 5 a
    kernel with two inputs, slot 6 one that uses a bit outside the six. *)
Definition sourceExample : Source :=
  mkSource (Some (mkMetadata
    [Some "root"; Some "blur"; Some "gray"; Some "tint";
     Some "ghost"; Some "blend"; Some "ctxt"]
    [0; 1; 1; 0; 1; 2; 1]
    [0; 43; 35; 42; 35; 35; 163]
    [Some "setup"; Some "reset"])).

(** ** Further vocabulary *)

(** An operand of the instruction at position [pos] of the entry block of
    a function with [nparams] parameters is in order when it is not null
    and names a parameter the function has or an instruction that comes
    before [pos]. *)
Definition definedOperand (nparams pos : nat) (v : option Value) : Prop :=
  match v with
  | Some (Arg i) => (i < nparams)%nat
  | Some (Inst j) => (j < pos)%nat
  | None => False
  end.

(** Two modules with the same function names, position by position, and
    the same functions everywhere but at position [K]. *)
Definition sameOff (K : nat) (M M' : Module) : Prop :=
  map fName (functions M') = map fName (functions M) /\
  forall F, F <> K -> nth_error (functions M') F = nth_error (functions M) F.

(** What a reader of a [char*] sees of a [std::string]: the characters
    before the first NUL. *)
Fixpoint c_str (s : string) : string :=
  match s with
  | EmptyString => EmptyString
  | String c s' =>
      if Ascii.eqb c Ascii.zero then EmptyString else String c (c_str s')
  end.

(** [char *getErrorMessage()]: a pointer to [mError.c_str()]. *)
Definition getErrorMessage (this : Compiler) : string := c_str (mError this).

(** * Proofs *)

(** ** Lists updated in place *)

Lemma list_update_ext {A : Type} (g h : A -> A) :
  (forall a, g a = h a) -> forall l n, list_update l n g = list_update l n h.
Proof.
  intros E l; induction l as [|a l IH]; intros [|n]; simpl; auto.
  all: try (now rewrite E); try (now rewrite IH).
Qed.

Lemma list_update_twice {A : Type} (g h : A -> A) l n :
  list_update (list_update l n g) n h = list_update l n (fun a => h (g a)).
Proof.
  revert n; induction l as [|a l IH]; intros [|n]; simpl; auto.
  now rewrite IH.
Qed.

Lemma nth_error_list_update {A : Type} (g : A -> A) l n :
  nth_error (list_update l n g) n = option_map g (nth_error l n).
Proof.
  revert n; induction l as [|a l IH]; intros [|n]; simpl; auto.
Qed.

Lemma list_update_last {A : Type} (g : A -> A) l a :
  list_update (l ++ [a]) (length l) g = l ++ [g a].
Proof.
  induction l as [|b l IH]; simpl; auto. now rewrite IH.
Qed.

Lemma map_list_update {A B : Type} (p : A -> B) (g : A -> A) l n :
  (forall a, p (g a) = p a) -> map p (list_update l n g) = map p l.
Proof.
  intros E; revert n; induction l as [|a l IH]; intros [|n]; simpl; auto.
  all: try (now rewrite E); try (now rewrite IH).
Qed.

Lemma nth_error_last {A : Type} (l : list A) a :
  nth_error (l ++ [a]) (length l) = Some a.
Proof.
  induction l; simpl; auto.
Qed.

(** ** 32-bit masks *)

Lemma testbit_not32 a i :
  0 <= i -> Z.testbit (not32 a) i = negb (Z.testbit a i) && (i <? 32).
Proof.
  intros Hi. unfold not32.
  rewrite Z.land_spec, Z.lnot_spec by assumption.
  f_equal.
  change 4294967295 with (Z.ones 32).
  destruct (Z.ltb_spec i 32).
  - apply Z.ones_spec_low; lia.
  - apply Z.ones_spec_high; lia.
Qed.

Lemma uint32_testbit_high a i :
  is_uint32 a -> 32 <= i -> Z.testbit a i = false.
Proof.
  intros [H0 H1] Hi.
  rewrite <- (Z.mod_small a (2 ^ 32)) by (change (2 ^ 32) with 4294967296; lia).
  apply Z.mod_pow2_bits_high; lia.
Qed.

Lemma land_zero_testbit a b i :
  Z.land a b = 0 -> Z.testbit a i = true -> Z.testbit b i = false.
Proof.
  intros H Ha.
  assert (E : Z.testbit (Z.land a b) i = false) by (rewrite H; apply Z.bits_0).
  rewrite Z.land_spec, Ha in E. exact E.
Qed.

(** Clearing one flag does not disturb a disjoint one. *)
Lemma land_not32_other r a b :
  is_uint32 b -> Z.land a b = 0 ->
  Z.land (Z.land r (not32 a)) b = Z.land r b.
Proof.
  intros Hb Hab. apply Z.bits_inj'. intros i Hi.
  rewrite !Z.land_spec, testbit_not32 by assumption.
  destruct (Z.testbit b i) eqn:Eb.
  - assert (Z.testbit a i = false).
    { rewrite Z.land_comm in Hab. eapply land_zero_testbit; eauto. }
    assert ((i <? 32) = true).
    { destruct (Z.ltb_spec i 32); auto.
      rewrite uint32_testbit_high in Eb by auto. discriminate. }
    rewrite H, H0. simpl. now rewrite !andb_true_r.
  - now rewrite !andb_false_r.
Qed.

Lemma land_not32_same r a : Z.land (Z.land r (not32 a)) a = 0.
Proof.
  apply Z.bits_inj'. intros i Hi.
  rewrite !Z.land_spec, testbit_not32, Z.bits_0 by assumption.
  destruct (Z.testbit a i); simpl; now rewrite ?andb_false_r.
Qed.

Lemma land_not32_id r a :
  is_uint32 r -> Z.land r a = 0 -> Z.land r (not32 a) = r.
Proof.
  intros Hr Hra. apply Z.bits_inj'. intros i Hi.
  rewrite Z.land_spec, testbit_not32 by assumption.
  destruct (Z.testbit r i) eqn:Er; auto.
  rewrite (land_zero_testbit r a i Hra Er).
  destruct (Z.ltb_spec i 32); auto.
  rewrite uint32_testbit_high in Er by auto. discriminate.
Qed.

(** ** The module operations *)

Lemma findFunction_nth fs name F :
  findFunction fs name = Some F ->
  exists fn, nth_error fs F = Some fn /\ fName fn = name.
Proof.
  revert F; induction fs as [|f fs IH]; simpl; intros F H; [discriminate|].
  destruct (String.eqb (fName f) name) eqn:E.
  - injection H as <-. exists f. split; auto. now apply String.eqb_eq.
  - destruct (findFunction fs name) as [F'|]; [|discriminate].
    injection H as <-. simpl. now apply IH.
Qed.

Lemma findFunction_names fs fs' name :
  map fName fs = map fName fs' -> findFunction fs name = findFunction fs' name.
Proof.
  revert fs'; induction fs as [|f fs IH]; intros [|f' fs'] H;
    simpl in *; try discriminate; auto.
  injection H as H1 H2. rewrite H1, (IH fs' H2). reflexivity.
Qed.

Lemma findFunction_app_found fs gs name F :
  findFunction fs name = Some F -> findFunction (fs ++ gs) name = Some F.
Proof.
  revert F; induction fs as [|f fs IH]; simpl; intros F H; [discriminate|].
  destruct (String.eqb (fName f) name); auto.
  destruct (findFunction fs name) as [F'|]; [|discriminate].
  now rewrite (IH F' eq_refl).
Qed.

Lemma findFunction_app_new fs g name :
  findFunction fs name = None ->
  findFunction (fs ++ [g]) name =
  if String.eqb (fName g) name then Some (length fs) else None.
Proof.
  induction fs as [|f fs IH]; simpl; intros H.
  - destruct (String.eqb (fName g) name); reflexivity.
  - destruct (String.eqb (fName f) name); [discriminate|].
    destruct (findFunction fs name); [discriminate|].
    rewrite (IH eq_refl). destruct (String.eqb (fName g) name); reflexivity.
Qed.

Lemma Module_getFunction_names M M' name :
  map fName (functions M) = map fName (functions M') ->
  Module_getFunction M name = Module_getFunction M' name.
Proof.
  intros H. unfold Module_getFunction.
  destruct (String.eqb name ""); auto using findFunction_names.
Qed.

Lemma Module_getFunction_at M name F :
  Module_getFunction M name = Some F ->
  exists fn, functionAt M F = Done fn /\ fName fn = name.
Proof.
  unfold Module_getFunction, functionAt.
  destruct (String.eqb name ""); [discriminate|].
  intros H. destruct (findFunction_nth _ _ _ H) as (fn & E & N).
  exists fn. rewrite E. auto.
Qed.

Lemma names_updateFunction M F g :
  (forall f, fName (g f) = fName f) ->
  map fName (functions (updateFunction M F g)) = map fName (functions M).
Proof.
  intros H. unfold updateFunction. simpl. now apply map_list_update.
Qed.

Lemma names_appendInsts M F block insts :
  map fName (functions (appendInsts M F block insts)) =
  map fName (functions M).
Proof.
  unfold appendInsts. now apply names_updateFunction.
Qed.

Lemma appendInsts_app M F block l1 l2 :
  appendInsts (appendInsts M F block l1) F block l2 =
  appendInsts M F block (l1 ++ l2).
Proof.
  unfold appendInsts, updateFunction. simpl. f_equal.
  rewrite list_update_twice. apply list_update_ext. intros f. simpl.
  f_equal. rewrite list_update_twice. apply list_update_ext.
  intros blk. unfold appendToBlock. simpl. now rewrite app_assoc.
Qed.

Lemma blockInsts_appendInsts M F block insts :
  blockInsts (appendInsts M F block insts) F block =
  option_map (fun l => l ++ insts) (blockInsts M F block).
Proof.
  unfold blockInsts, appendInsts, updateFunction. simpl.
  rewrite nth_error_list_update.
  destruct (nth_error (functions M) F) as [f|]; simpl; auto.
  rewrite nth_error_list_update.
  destruct (nth_error (fBlocks f) block); reflexivity.
Qed.

(** Adding an operand to a named node. *)
Lemma getNamedMetadata_addOperandTo md name op other :
  getNamedMetadata (addOperandTo md name op) other =
  if String.eqb name other
  then Some (match getNamedMetadata md name with
             | Some ops => ops ++ [op]
             | None => [op]
             end)
  else getNamedMetadata md other.
Proof.
  induction md as [|[n ops] md IH]; simpl.
  - reflexivity.
  - destruct (String.eqb n name) eqn:E; simpl.
    + apply String.eqb_eq in E. subst n.
      destruct (String.eqb name other); reflexivity.
    + rewrite IH. destruct (String.eqb name other) eqn:E2.
      * apply String.eqb_eq in E2. subst other. rewrite E. reflexivity.
      * reflexivity.
Qed.

Lemma operandsOf_addNamedOperand M name op other :
  operandsOf (addNamedOperand M name op) other =
  if String.eqb name other then operandsOf M name ++ [op]
  else operandsOf M other.
Proof.
  unfold operandsOf, addNamedOperand. simpl.
  rewrite getNamedMetadata_addOperandTo.
  destruct (String.eqb name other); auto.
  destruct (getNamedMetadata (namedMetadata M) name); reflexivity.
Qed.

(** ** Signature negotiation *)

Section Negotiation.

Context {bits : MetadataSignatureBitval}.

Lemma at_slot_nth {A : Type} (l : list A) slot a :
  (slot <? 0) = false -> nth_error l (Z.to_nat slot) = Some a ->
  at_slot l slot = Done a.
Proof.
  intros H1 H2. unfold at_slot. now rewrite H1, H2.
Qed.

Lemma kernelAt_reads k name count sig :
  kernelAt k = Some (name, count, sig) ->
  exists md, extract (fst k) = Some md /\
    at_slot (getExportForEachNameList md) (snd k) = Done name /\
    at_slot (getExportForEachInputCountList md) (snd k) = Done count /\
    at_slot (getExportForEachSignatureList md) (snd k) = Done sig.
Proof.
  unfold kernelAt. destruct (extract (fst k)) as [md|]; [|discriminate].
  destruct (snd k <? 0) eqn:Hs; [discriminate|].
  destruct (nth_error (getExportForEachNameList md) _) eqn:E1; [|discriminate].
  destruct (nth_error (getExportForEachInputCountList md) _) eqn:E2;
    [|discriminate].
  destruct (nth_error (getExportForEachSignatureList md) _) eqn:E3;
    [|discriminate].
  intros H. injection H as -> -> ->. exists md.
  repeat split; auto using at_slot_nth.
Qed.

Lemma validSlot_kernelAt k :
  validSlot k ->
  kernelAt k = Some (nameOf k, inputCountOf k, signatureOf k).
Proof.
  unfold validSlot, nameOf, inputCountOf, signatureOf.
  destruct (kernelAt k) as [[[n c] s]|]; congruence.
Qed.

Lemma land_not32_nonneg a b : 0 <= Z.land a (not32 b).
Proof.
  apply Z.land_nonneg. right. unfold not32. apply Z.land_nonneg. right. lia.
Qed.

Lemma testbit_Expected i :
  Z.testbit ExpectedSignatureBits i =
  Z.testbit MD_SIG_In i || Z.testbit MD_SIG_Out i || Z.testbit MD_SIG_X i ||
  Z.testbit MD_SIG_Y i || Z.testbit MD_SIG_Z i || Z.testbit MD_SIG_Kernel i.
Proof.
  unfold ExpectedSignatureBits. now rewrite !Z.lor_spec.
Qed.

(** The test the code makes is the one the specification names. *)
Lemma outside_iff sig :
  Z.land sig (not32 ExpectedSignatureBits) <> 0 <-> hasBitOutside sig.
Proof.
  split.
  - intros Hn.
    pose proof (land_not32_nonneg sig ExpectedSignatureBits) as H0.
    set (a := Z.land sig (not32 ExpectedSignatureBits)) in *.
    assert (Hpos : 0 < a) by lia.
    pose proof (Z.bit_log2 a Hpos) as Hb.
    pose proof (Z.log2_nonneg a) as Hl.
    unfold a in Hb. rewrite Z.land_spec, testbit_not32 in Hb by assumption.
    apply andb_true_iff in Hb as [Hs Hb].
    apply andb_true_iff in Hb as [He Hlt].
    apply negb_true_iff in He. rewrite testbit_Expected in He.
    repeat (apply orb_false_iff in He as [He ?]).
    exists (Z.log2 a). apply Z.ltb_lt in Hlt. fold a. repeat split; auto.
  - intros (i & [Hi0 Hi1] & Hs & HIn & HOut & HX & HY & HZ & HK) E.
    assert (Hb : Z.testbit (Z.land sig (not32 ExpectedSignatureBits)) i = false)
      by (rewrite E; apply Z.bits_0).
    rewrite Z.land_spec, testbit_not32, testbit_Expected in Hb by assumption.
    rewrite Hs, HIn, HOut, HX, HY, HZ, HK in Hb. simpl in Hb.
    apply Z.ltb_ge in Hb. lia.
Qed.

Lemma sig_loop_rejects chain retSig firstSignature signature :
  Forall validSlot chain ->
  Exists (fun k => inputCountOf k > 1 \/ hasBitOutside (signatureOf k)) chain ->
  exists retSig',
    getFusedFuncSig_from (map fst chain) (map snd chain)
      retSig firstSignature signature = Done (-1, retSig').
Proof.
  intros Hv; revert retSig firstSignature signature.
  induction Hv as [|k chain Hk Hv IH]; intros r f s Hex.
  - inversion Hex.
  - apply validSlot_kernelAt in Hk.
    destruct (kernelAt_reads _ _ _ _ Hk) as (md & Emd & _ & Ec & Es).
    simpl. rewrite Emd. simpl. rewrite Ec. simpl.
    destruct (inputCountOf k >? 1) eqn:Hc; [eauto|].
    rewrite Es. simpl.
    destruct (Z.land (signatureOf k) (not32 ExpectedSignatureBits) =? 0)
      eqn:Hsig; simpl; [|eauto].
    apply IH. inversion Hex as [? ? [Hbad|Hbad]|]; subst; auto.
    + rewrite Z.gtb_ltb in Hc. apply Z.ltb_ge in Hc. lia.
    + apply outside_iff in Hbad. apply Z.eqb_eq in Hsig. contradiction.
Qed.

Lemma sig_loop_accepted chain retSig firstSignature signature error sig :
  Forall validSlot chain ->
  getFusedFuncSig_from (map fst chain) (map snd chain)
    retSig firstSignature signature = Done (error, sig) ->
  (error <? 0) = false ->
  Forall supported chain.
Proof.
  intros Hv; revert retSig firstSignature signature.
  induction Hv as [|k chain Hk Hv IH]; intros r f s H He; [constructor|].
  apply validSlot_kernelAt in Hk.
  destruct (kernelAt_reads _ _ _ _ Hk) as (md & Emd & _ & Ec & Es).
  simpl in H. rewrite Emd in H. simpl in H. rewrite Ec in H. simpl in H.
  destruct (inputCountOf k >? 1) eqn:Hc.
  { injection H as <- <-. discriminate. }
  rewrite Es in H. simpl in H.
  destruct (Z.land (signatureOf k) (not32 ExpectedSignatureBits) =? 0)
    eqn:Hsig; simpl in H.
  2:{ injection H as <- <-. discriminate. }
  constructor; [|eapply IH; eauto].
  split.
  - rewrite Z.gtb_ltb in Hc. apply Z.ltb_ge in Hc. lia.
  - now apply Z.eqb_eq.
Qed.

(** What [getFunction] returns for a valid slot of a kernel with at most
    one input. *)
Lemma getFunction_valid M k w :
  validSlot k -> inputCountOf k <= 1 ->
  getFunction M (fst k) (snd k) w =
  Done (match resolve M k with
        | Some F => ((if w then Some (signatureOf k) else None), Some F)
        | None =>
            ((match nameOf k with
              | Some n =>
                  if String.eqb n "" then None
                  else if w then Some (signatureOf k) else None
              | None => None
              end), None)
        end).
Proof.
  intros Hk Hc. apply validSlot_kernelAt in Hk.
  destruct (kernelAt_reads _ _ _ _ Hk) as (md & Emd & En & Ec & Es).
  unfold getFunction, resolve. rewrite Emd. simpl. rewrite En. simpl.
  destruct (nameOf k) as [n|]; [|reflexivity].
  unfold Module_getFunction.
  destruct (String.eqb n "") eqn:E; [reflexivity|].
  rewrite Ec. simpl.
  assert ((inputCountOf k >? 1) = false) as ->.
  { rewrite Z.gtb_ltb. apply Z.ltb_ge. lia. }
  destruct w; simpl.
  - rewrite Es. simpl. destruct (findFunction (functions M) n); reflexivity.
  - destruct (findFunction (functions M) n); reflexivity.
Qed.

End Negotiation.

Lemma last_error_map {A B : Type} (g : A -> B) (l : list A) :
  last_error (map g l) = option_map g (last_error l).
Proof.
  unfold last_error. rewrite <- map_rev. now destruct (rev l).
Qed.

Lemma hd_error_map {A B : Type} (g : A -> B) (l : list A) :
  hd_error (map g l) = option_map g (hd_error l).
Proof.
  now destruct l.
Qed.

Lemma hd_error_In {A : Type} (l : list A) a : hd_error l = Some a -> In a l.
Proof.
  destruct l; simpl; [discriminate|]. intros H. injection H as ->. now left.
Qed.

Lemma last_error_In {A : Type} (l : list A) a : last_error l = Some a -> In a l.
Proof.
  unfold last_error. intros H. apply in_rev. now apply hd_error_In.
Qed.

(** ** The fusion entry points *)

Section FusionTheorems.

Context {bits : MetadataSignatureBitval}.
Variable disableAsserts : bool.
Variable uniqueName : list string -> string -> string.

Lemma bccAssert_true : bccAssert disableAsserts true = Done tt.
Proof.
  reflexivity.
Qed.

Lemma bccAssert_sizes (chain : list Member) :
  bccAssert disableAsserts
    (Nat.eqb (length (map fst chain)) (length (map snd chain))) = Done tt.
Proof.
  rewrite !length_map, Nat.eqb_refl. reflexivity.
Qed.

(** C4: a chain with a member of input count above 1, or with a mask bit
    outside the six supported flags, makes [fuseKernels] return failure with
    the destination module exactly as it was, so neither exported list is
    touched. *)
Theorem fuseKernels_rejects_unsupported (chain : list Member)
    (fusedName : string) (m : Module) :
  Forall validSlot chain ->
  Exists (fun k => inputCountOf k > 1 \/ hasBitOutside (signatureOf k)) chain ->
  fuseKernels disableAsserts uniqueName (map fst chain) (map snd chain)
    fusedName m = Done (false, m).
Proof.
  intros Hv Hex.
  unfold fuseKernels. rewrite bccAssert_sizes. simpl.
  unfold getFusedFuncType, getFusedFuncSig.
  destruct (sig_loop_rejects chain 0 0 0 Hv Hex) as (r & ->).
  reflexivity.
Qed.

Lemma functionOf_inv M k f :
  functionOf M k = Some f ->
  exists F, resolve M k = Some F /\ nth_error (functions M) F = Some f.
Proof.
  unfold functionOf. destruct (resolve M k) as [F|]; [|discriminate].
  intros H. eauto.
Qed.

Lemma getFusedFuncType_resolved (chain : list Member) (M : Module) (sig : Z)
    (first last : Member) (f1 fN : Function) :
  hd_error chain = Some first ->
  last_error chain = Some last ->
  Forall validSlot chain ->
  getFusedFuncSig (map fst chain) (map snd chain) = Done (0, sig) ->
  functionOf M first = Some f1 ->
  functionOf M last = Some fN ->
  (hasForEachSignatureIn sig = true -> fArgs f1 <> []) ->
  getFusedFuncType disableAsserts (map fst chain) (map snd chain) M =
  Done (Some (mkFunctionType (fReturnType fN)
                (fusedParamTypes sig (map fst (firstn 1 (fArgs f1))))),
        sig).
Proof.
  intros Hhd Hlast Hv Hacc O1 ON Hin.
  destruct (functionOf_inv _ _ _ O1) as (F1 & R1 & N1).
  destruct (functionOf_inv _ _ _ ON) as (FN & RN & NN).
  pose proof (sig_loop_accepted chain 0 0 0 0 sig Hv Hacc eq_refl) as Hsup.
  rewrite Forall_forall in Hv, Hsup.
  pose proof (hd_error_In _ _ Hhd) as In1.
  pose proof (last_error_In _ _ Hlast) as InN.
  unfold getFusedFuncType.
  rewrite Hacc, !hd_error_map, !last_error_map, Hhd, Hlast.
  cbn [bind option_map deref fst snd Z.ltb Z.compare].
  rewrite (getFunction_valid M first false (Hv _ In1) (proj1 (Hsup _ In1))).
  rewrite (getFunction_valid M last false (Hv _ InN) (proj1 (Hsup _ InN))).
  rewrite R1, RN. cbn [bind isSome deref]. rewrite !bccAssert_true.
  cbn [bind].
  unfold functionAt. rewrite NN. cbn [bind deref].
  unfold fusedParamTypes.
  destruct (hasForEachSignatureIn sig) eqn:EIn.
  - rewrite N1. cbn [bind deref].
    destruct (fArgs f1) as [|a args]; [now elim (Hin eq_refl)|].
    cbn [hd_error bind deref firstn map].
    destruct (hasForEachSignatureX sig), (hasForEachSignatureY sig),
      (hasForEachSignatureZ sig); reflexivity.
  - cbn [bind].
    destruct (hasForEachSignatureX sig), (hasForEachSignatureY sig),
      (hasForEachSignatureZ sig); reflexivity.
Qed.

(** ** The loop over the chain *)

Lemma list_update_id {A : Type} (g : A -> A) l n :
  (forall a, g a = a) -> list_update l n g = l.
Proof.
  intros E; revert n; induction l as [|a l IH]; intros [|n]; simpl; auto.
  all: try (now rewrite E); try (now rewrite IH).
Qed.

Lemma appendInsts_nil M F block : appendInsts M F block [] = M.
Proof.
  unfold appendInsts, updateFunction. destruct M as [fs md]. simpl. f_equal.
  apply list_update_id. intros [n r a bs]. simpl. f_equal.
  apply list_update_id. intros [bn insts]. unfold appendToBlock. simpl.
  now rewrite app_nil_r.
Qed.

Lemma resolve_names M M' k :
  map fName (functions M) = map fName (functions M') ->
  resolve M k = resolve M' k.
Proof.
  intros H. unfold resolve. destruct (nameOf k); auto.
  now apply Module_getFunction_names.
Qed.

Lemma chainCalls_ext res res' X Y Z' chain :
  (forall k, res k = res' k) ->
  forall d n, chainCalls res X Y Z' chain d n = chainCalls res' X Y Z' chain d n.
Proof.
  intros E. induction chain as [|k chain IH]; intros d n; simpl; auto.
  rewrite E. destruct (res' k); auto. now rewrite IH.
Qed.

Lemma loop_forward F b X Y Z' chain :
  forall d M old,
  Forall (fun k => validSlot k /\ inputCountOf k <= 1) chain ->
  blockInsts M F b = Some old ->
  fuseKernels_loop F b X Y Z' (map fst chain) (map snd chain) d M =
  let '(calls, finished, last) :=
    chainCalls (resolve M) X Y Z' chain d (length old) in
  Done (finished, last, appendInsts M F b calls).
Proof.
  induction chain as [|k chain IH]; intros d M old Hv Hb.
  - simpl. now rewrite appendInsts_nil.
  - inversion Hv as [|? ? [Hk Hc] Hv']; subst.
    cbn [map fuseKernels_loop hd_error deref bind tl chainCalls].
    rewrite (getFunction_valid M k true Hk Hc).
    destruct (resolve M k) as [callee|] eqn:R.
    + cbn [bind deref CreateCall].
      unfold blockSize. rewrite Hb.
      assert (Hb' : blockInsts (appendInsts M F b
                [CallInst callee
                   ((if isSome d then [d] else []) ++
                    (if hasForEachSignatureX (signatureOf k) then [X] else []) ++
                    (if hasForEachSignatureY (signatureOf k) then [Y] else []) ++
                    (if hasForEachSignatureZ (signatureOf k) then [Z'] else []))])
                F b = Some (old ++ [CallInst callee
                   ((if isSome d then [d] else []) ++
                    (if hasForEachSignatureX (signatureOf k) then [X] else []) ++
                    (if hasForEachSignatureY (signatureOf k) then [Y] else []) ++
                    (if hasForEachSignatureZ (signatureOf k) then [Z'] else []))])).
      { rewrite blockInsts_appendInsts, Hb. reflexivity. }
      pose proof (IH (Some (Inst (length old))) _ _ Hv' Hb') as IH'.
      rewrite length_app, Nat.add_1_r in IH'.
      rewrite (chainCalls_ext _ (resolve M)) in IH'
        by (intros; apply resolve_names, names_appendInsts).
      destruct (chainCalls (resolve M) X Y Z' chain
                  (Some (Inst (length old))) (S (length old)))
        as [[calls fin] last].
      rewrite appendInsts_app in IH'. simpl app in IH'.
      rewrite <- IH'. f_equal. f_equal.
      destruct (isSome d), (hasForEachSignatureX (signatureOf k)),
        (hasForEachSignatureY (signatureOf k)),
        (hasForEachSignatureZ (signatureOf k)); reflexivity.
    + cbn [bind]. now rewrite appendInsts_nil.
Qed.

(** ** The stages of [fuseKernels] *)

Lemma fuseKernels_stages sources slots fusedName m :
  fuseKernels disableAsserts uniqueName sources slots fusedName m =
  (_ <- bccAssert disableAsserts (Nat.eqb (length sources) (length slots)) ;;
   '(fusedType, signature) <-
     getFusedFuncType disableAsserts sources slots m ;;
   match fusedType with
   | None => Done (false, m)
   | Some fusedType =>
       '(fusedKernel, M) <- getOrInsertFunction m fusedName fusedType ;;
       '(block, M) <- BasicBlock_Create uniqueName "entry" fusedKernel M ;;
       fuseKernels_body uniqueName sources slots fusedName signature
         fusedKernel block M
   end).
Proof.
  unfold fuseKernels.
  destruct (bccAssert disableAsserts _); [|reflexivity]. cbn [bind].
  destruct (getFusedFuncType disableAsserts sources slots m)
    as [[[T|] sig]|]; try reflexivity. cbn [bind].
  destruct (getOrInsertFunction m fusedName T) as [[F M]|]; [|reflexivity].
  cbn [bind].
  destruct (BasicBlock_Create uniqueName "entry" F M) as [[b M']|];
    [|reflexivity].
  cbn [bind]. unfold fuseKernels_body, nameArguments, nextArgument.
  unfold inputValue, xValue, yValue, zValue, zIndex, yIndex, xIndex.
  destruct (hasForEachSignatureIn sig), (hasForEachSignatureX sig),
    (hasForEachSignatureY sig), (hasForEachSignatureZ sig); reflexivity.
Qed.

Lemma updateFunction_last fs f md g :
  updateFunction (mkModule (fs ++ [f]) md) (length fs) g =
  mkModule (fs ++ [g f]) md.
Proof.
  unfold updateFunction. simpl. now rewrite list_update_last.
Qed.

Lemma functionAt_last fs f md :
  functionAt (mkModule (fs ++ [f]) md) (length fs) = Done f.
Proof.
  unfold functionAt. simpl. now rewrite nth_error_last.
Qed.

Lemma blockInsts_last fs f md block :
  blockInsts (mkModule (fs ++ [f]) md) (length fs) block =
  option_map bbInsts (nth_error (fBlocks f) block).
Proof.
  unfold blockInsts. simpl. now rewrite nth_error_last.
Qed.

Lemma appendInsts_last fs md name ret args bname insts new :
  appendInsts
    (mkModule (fs ++ [mkFunction name ret args [mkBasicBlock bname insts]]) md)
    (length fs) 0 new =
  mkModule (fs ++ [mkFunction name ret args [mkBasicBlock bname (insts ++ new)]])
    md.
Proof.
  unfold appendInsts. now rewrite updateFunction_last.
Qed.

Lemma sameButArgNames_refl f : sameButArgNames f f.
Proof.
  unfold sameButArgNames. auto.
Qed.

Lemma sameButArgNames_trans f g h :
  sameButArgNames f g -> sameButArgNames g h -> sameButArgNames f h.
Proof.
  unfold sameButArgNames. intros (A & B & C & D) (A' & B' & C' & D').
  repeat split; congruence.
Qed.

Lemma Argument_setName_last fs f md i name :
  exists f',
    Argument_setName uniqueName (mkModule (fs ++ [f]) md) (length fs) i name =
    mkModule (fs ++ [f']) md /\ sameButArgNames f f'.
Proof.
  unfold Argument_setName. rewrite updateFunction_last.
  eexists. split; [reflexivity|].
  unfold sameButArgNames. simpl. repeat split.
  now apply map_list_update.
Qed.

Lemma nameArguments_last sig fs f md :
  exists f',
    nameArguments uniqueName sig (length fs) (mkModule (fs ++ [f]) md) =
    mkModule (fs ++ [f']) md /\ sameButArgNames f f'.
Proof.
  unfold nameArguments.
  assert (Step : forall (c : bool) i name g,
    sameButArgNames f g ->
    exists f',
      (if c
       then Argument_setName uniqueName (mkModule (fs ++ [g]) md)
              (length fs) i name
       else mkModule (fs ++ [g]) md) = mkModule (fs ++ [f']) md /\
      sameButArgNames f f').
  { intros [|] i name g Hg.
    - destruct (Argument_setName_last fs g md i name) as (f' & E & S).
      exists f'. split; auto. eapply sameButArgNames_trans; eauto.
    - exists g. auto. }
  destruct (Step (hasForEachSignatureIn sig) O "DataIn" f
              (sameButArgNames_refl f)) as (f1 & -> & S1).
  destruct (Step (hasForEachSignatureX sig) (xIndex sig) "x" f1 S1)
    as (f2 & -> & S2).
  destruct (Step (hasForEachSignatureY sig) (yIndex sig) "y" f2 S2)
    as (f3 & -> & S3).
  exact (Step (hasForEachSignatureZ sig) (zIndex sig) "z" f3 S3).
Qed.

Lemma existsb_unnamed name (tys : list LType) :
  String.eqb name "" = false ->
  existsb (String.eqb name) (map snd (map (fun t => (t, "")) tys) ++ []) = false.
Proof.
  intros H. rewrite app_nil_r, map_map. simpl.
  induction tys as [|t tys IH]; simpl; auto. now rewrite H, IH.
Qed.

Lemma pickName_unnamed name (tys : list LType) :
  String.eqb name "" = false ->
  pickName uniqueName
    (map snd (map (fun t => (t, "")) tys) ++ map bbName []) name = name.
Proof.
  intros H. unfold pickName. simpl map at 1.
  now rewrite H, existsb_unnamed.
Qed.

Lemma map_fst_unnamed (tys : list LType) :
  map fst (map (fun t => (t, "")) tys) = tys.
Proof.
  rewrite map_map. simpl. apply map_id.
Qed.

(** The whole of [fuseKernels] when the fused name is new to the module. *)
Lemma fuseKernels_fresh (chain : list Member) fusedName m sig T :
  Forall validSlot chain ->
  Forall supported chain ->
  getFusedFuncType disableAsserts (map fst chain) (map snd chain) m =
    Done (Some T, sig) ->
  Module_getFunction m fusedName = None ->
  exists args, map fst args = ftParams T /\
    let fused insts :=
      mkFunction fusedName (ftReturn T) args [mkBasicBlock "entry" insts] in
    fuseKernels disableAsserts uniqueName (map fst chain) (map snd chain)
      fusedName m =
    let '(calls, finished, last) :=
      chainCalls
        (resolve (mkModule (functions m ++ [fused []]) (namedMetadata m)))
        (xValue sig) (yValue sig) (zValue sig) chain (inputValue sig) 0 in
    if finished
    then Done (true,
           mkModule
             (functions m ++
              [fused (calls ++
                      [if isVoidTy (ftReturn T) then RetVoid else Ret last])])
             (addOperandTo
                (addOperandTo (namedMetadata m)
                   "#rs_export_foreach_name" fusedName)
                "#rs_export_foreach" (utostr_32 sig)))
    else Done (false,
           mkModule (functions m ++ [fused calls]) (namedMetadata m)).
Proof.
  intros Hv Hsup HT Hfresh.
  rewrite fuseKernels_stages, bccAssert_sizes, HT. cbn [bind].
  unfold getOrInsertFunction. rewrite Hfresh. cbn [bind].
  unfold BasicBlock_Create. rewrite functionAt_last. cbn [bind fArgs fBlocks].
  rewrite updateFunction_last, pickName_unnamed by reflexivity.
  cbn [fName fReturnType fArgs fBlocks app length].
  unfold fuseKernels_body.
  destruct (nameArguments_last sig (functions m)
              (mkFunction fusedName (ftReturn T)
                 (map (fun t => (t, "")) (ftParams T))
                 [mkBasicBlock "entry" []]) (namedMetadata m))
    as ([n r args bs] & -> & Sn & Sr & Sa & Sb).
  simpl in Sn, Sr, Sa, Sb. subst n r bs. rewrite map_fst_unnamed in Sa.
  exists args. split; [exact Sa|]. cbv zeta.
  assert (Hvc : Forall (fun k => validSlot k /\ inputCountOf k <= 1) chain).
  { rewrite Forall_forall in *. intros k Hk. split; auto.
    apply (Hsup k Hk). }
  rewrite (loop_forward _ _ _ _ _ chain _ _ [] Hvc)
    by (rewrite blockInsts_last; reflexivity).
  cbn [length].
  destruct (chainCalls _ (xValue sig) (yValue sig) (zValue sig) chain
              (inputValue sig) 0) as [[calls fin] last].
  cbn [bind]. rewrite appendInsts_last. cbn [app].
  destruct fin; cbn [negb]; [|reflexivity].
  rewrite functionAt_last. cbn [bind fReturnType].
  unfold CreateRetVoid, CreateRet.
  destruct (isVoidTy (ftReturn T)); rewrite appendInsts_last; reflexivity.
Qed.

(** X14: a first member without a function is an assertion failure of
    [getFusedFuncType] when assertions are compiled in, not a returned
    failure. *)
Lemma unresolved_first_member_asserts (chain : list Member) (first : Member)
    fusedName m sig :
  disableAsserts = false ->
  hd_error chain = Some first ->
  Forall validSlot chain ->
  getFusedFuncSig (map fst chain) (map snd chain) = Done (0, sig) ->
  resolve m first = None ->
  fuseKernels disableAsserts uniqueName (map fst chain) (map snd chain)
    fusedName m = Stuck AssertionFailed.
Proof.
  intros Ha Hhd Hv Hacc R1.
  pose proof (sig_loop_accepted chain 0 0 0 0 sig Hv Hacc eq_refl) as Hsup.
  rewrite Forall_forall in Hv, Hsup.
  pose proof (hd_error_In _ _ Hhd) as In1.
  unfold fuseKernels. rewrite bccAssert_sizes. cbn [bind].
  unfold getFusedFuncType.
  rewrite Hacc, !hd_error_map, Hhd.
  cbn [bind option_map deref fst snd Z.ltb Z.compare].
  rewrite (getFunction_valid m first false (Hv _ In1) (proj1 (Hsup _ In1))).
  rewrite R1. cbn [bind isSome]. unfold bccAssert. rewrite Ha. reflexivity.
Qed.

(** C5: for an accepted chain the fused function type has, in the order
    [input, x, y, z], the first kernel's first parameter type when the
    combined mask keeps HasInput and a 32-bit integer for each of x, y, z
    the combined mask keeps; its return type is the last kernel's return
    type, void included. *)
Theorem getFusedFuncType_shape (chain : list Member) (M : Module) (sig : Z)
    (first last : Member) (f1 fN : Function) :
  hd_error chain = Some first ->
  last_error chain = Some last ->
  Forall validSlot chain ->
  getFusedFuncSig (map fst chain) (map snd chain) = Done (0, sig) ->
  functionOf M first = Some f1 ->
  functionOf M last = Some fN ->
  (hasForEachSignatureIn sig = true -> fArgs f1 <> []) ->
  exists T,
    getFusedFuncType disableAsserts (map fst chain) (map snd chain) M =
      Done (Some T, sig) /\
    ftReturn T = fReturnType fN /\
    ftParams T =
      (if hasForEachSignatureIn sig
       then map fst (firstn 1 (fArgs f1)) else []) ++
      (if hasForEachSignatureX sig then [IntegerTy 32] else []) ++
      (if hasForEachSignatureY sig then [IntegerTy 32] else []) ++
      (if hasForEachSignatureZ sig then [IntegerTy 32] else []) /\
    (hasForEachSignatureIn sig = true ->
     exists ty name rest, fArgs f1 = (ty, name) :: rest /\
                          hd_error (ftParams T) = Some ty).
Proof.
  intros Hhd Hlast Hv Hacc O1 ON Hin.
  eexists. split; [eapply getFusedFuncType_resolved; eauto|].
  cbn [ftReturn ftParams]. repeat split.
  intros EIn. specialize (Hin EIn).
  destruct (fArgs f1) as [|[ty name] rest]; [congruence|].
  exists ty, name, rest. split; auto.
  unfold fusedParamTypes. now rewrite EIn.
Qed.

(** ** Which flags the combined mask keeps *)

Lemma declares_lor r own flag :
  declares (Z.lor r own) flag <-> declares r flag \/ declares own flag.
Proof.
  unfold declares. rewrite Z.land_lor_distr_l, Z.lor_eq_0_iff.
  destruct (Z.eq_dec (Z.land r flag) 0), (Z.eq_dec (Z.land own flag) 0);
    intuition auto.
Qed.

Lemma has_declares sig flag :
  negb (Z.land sig flag =? 0) = true <-> declares sig flag.
Proof.
  unfold declares. rewrite negb_true_iff, Z.eqb_neq. reflexivity.
Qed.

Lemma sig_loop_flag (chain : list Member) flag :
  is_uint32 flag ->
  Z.land MD_SIG_In flag = 0 -> Z.land MD_SIG_Out flag = 0 ->
  forall retSig firstSignature signature sig,
  Forall validSlot chain ->
  getFusedFuncSig_from (map fst chain) (map snd chain)
    retSig firstSignature signature = Done (0, sig) ->
  (declares sig flag <->
   declares retSig flag \/
   Exists (fun k => declares (signatureOf k) flag) chain).
Proof.
  intros Hf HIn HOut r f s sig Hv; revert r f s.
  induction Hv as [|k chain Hk Hv IH]; intros r f s H.
  - simpl in H. injection H as <-. unfold declares.
    rewrite Exists_nil.
    destruct (negb (hasForEachSignatureOut s)),
      (negb (hasForEachSignatureIn f));
      rewrite ?land_not32_other by assumption; tauto.
  - apply validSlot_kernelAt in Hk.
    destruct (kernelAt_reads _ _ _ _ Hk) as (md & Emd & _ & Ec & Es).
    simpl in H. rewrite Emd in H. simpl in H. rewrite Ec in H. simpl in H.
    destruct (inputCountOf k >? 1); [discriminate|].
    rewrite Es in H. simpl in H.
    destruct (Z.land (signatureOf k) (not32 ExpectedSignatureBits) =? 0);
      simpl in H; [|discriminate].
    rewrite (IH _ _ _ H), declares_lor, Exists_cons. tauto.
Qed.

Lemma last_error_cons {A : Type} (a : A) (l : list A) :
  last_error (a :: l) =
  match last_error l with Some b => Some b | None => Some a end.
Proof.
  unfold last_error. simpl. destruct (rev l) as [|b r] eqn:E; reflexivity.
Qed.

Lemma sig_loop_accepts (chain : list Member) :
  Forall validSlot chain -> Forall supported chain ->
  forall retSig firstSignature signature, exists sig,
    getFusedFuncSig_from (map fst chain) (map snd chain)
      retSig firstSignature signature = Done (0, sig).
Proof.
  intros Hv; induction Hv as [|k chain Hk Hv IH]; intros Hs r f s.
  - simpl. eauto.
  - inversion Hs as [|? ? [Hc Hb] Hs']; subst.
    apply validSlot_kernelAt in Hk.
    destruct (kernelAt_reads _ _ _ _ Hk) as (md & Emd & _ & Ec & Es).
    simpl. rewrite Emd. simpl. rewrite Ec. simpl.
    assert ((inputCountOf k >? 1) = false) as ->
      by (rewrite Z.gtb_ltb; apply Z.ltb_ge; lia).
    rewrite Es. simpl. rewrite Hb. simpl. apply IH, Hs'.
Qed.

Section InputOutput.

Context {disjoint : SignatureBitsDisjoint bits}.

(** HasInput survives exactly when the first signature that is not 0
    declares it. *)
Lemma sig_loop_input (chain : list Member) :
  Forall validSlot chain ->
  forall retSig firstSignature signature sig,
  (declares firstSignature MD_SIG_In -> declares retSig MD_SIG_In) ->
  getFusedFuncSig_from (map fst chain) (map snd chain)
    retSig firstSignature signature = Done (0, sig) ->
  (declares sig MD_SIG_In <->
   declares (if firstSignature =? 0 then firstNonzeroSignature chain
             else firstSignature) MD_SIG_In).
Proof.
  intros Hv; induction Hv as [|k chain Hk Hv IH]; intros r f s sig Inv H.
  - simpl in H. injection H as <-.
    assert (E0 : (if f =? 0 then firstNonzeroSignature [] else f) = f).
    { simpl. destruct (Z.eqb_spec f 0); congruence. }
    rewrite E0. clear E0. unfold declares in *.
    assert (Keep : forall x,
      Z.land (if negb (hasForEachSignatureOut s)
              then Z.land x (not32 MD_SIG_Out) else x) MD_SIG_In =
      Z.land x MD_SIG_In).
    { intros x. destruct (negb (hasForEachSignatureOut s)); auto.
      apply land_not32_other; [apply In_uint32|].
      rewrite Z.land_comm. apply In_Out. }
    rewrite Keep. unfold hasForEachSignatureIn.
    destruct (Z.eqb_spec (Z.land f MD_SIG_In) 0) as [E|E]; simpl.
    + rewrite land_not32_same. tauto.
    + specialize (Inv E). tauto.
  - apply validSlot_kernelAt in Hk.
    destruct (kernelAt_reads _ _ _ _ Hk) as (md & Emd & _ & Ec & Es).
    simpl in H. rewrite Emd in H. simpl in H. rewrite Ec in H. simpl in H.
    destruct (inputCountOf k >? 1); [discriminate|].
    rewrite Es in H. simpl in H.
    destruct (Z.land (signatureOf k) (not32 ExpectedSignatureBits) =? 0);
      simpl in H; [|discriminate].
    assert (Inv' : declares (if f =? 0 then signatureOf k else f) MD_SIG_In ->
                   declares (Z.lor r (signatureOf k)) MD_SIG_In).
    { rewrite declares_lor. destruct (f =? 0); auto. }
    rewrite (IH _ _ _ _ Inv' H).
    simpl. destruct (Z.eqb_spec f 0) as [->|Nf]; [reflexivity|].
    destruct (Z.eqb_spec f 0); [congruence|reflexivity].
Qed.

(** HasOutput survives exactly when the last signature declares it. *)
Lemma sig_loop_output (chain : list Member) :
  Forall validSlot chain ->
  forall retSig firstSignature signature sig,
  (declares signature MD_SIG_Out -> declares retSig MD_SIG_Out) ->
  getFusedFuncSig_from (map fst chain) (map snd chain)
    retSig firstSignature signature = Done (0, sig) ->
  (declares sig MD_SIG_Out <->
   declares (match last_error chain with
             | Some k => signatureOf k
             | None => signature
             end) MD_SIG_Out).
Proof.
  intros Hv; induction Hv as [|k chain Hk Hv IH]; intros r f s sig Inv H.
  - simpl in H. injection H as <-. cbn [last_error rev hd_error].
    unfold declares in *. unfold hasForEachSignatureOut.
    destruct (Z.eqb_spec (Z.land s MD_SIG_Out) 0) as [E|E]; simpl.
    + rewrite land_not32_same. tauto.
    + specialize (Inv E).
      destruct (negb (hasForEachSignatureIn f)); [|tauto].
      rewrite land_not32_other; [tauto|apply Out_uint32|apply In_Out].
  - apply validSlot_kernelAt in Hk.
    destruct (kernelAt_reads _ _ _ _ Hk) as (md & Emd & _ & Ec & Es).
    simpl in H. rewrite Emd in H. simpl in H. rewrite Ec in H. simpl in H.
    destruct (inputCountOf k >? 1); [discriminate|].
    rewrite Es in H. simpl in H.
    destruct (Z.land (signatureOf k) (not32 ExpectedSignatureBits) =? 0);
      simpl in H; [|discriminate].
    assert (Inv' : declares (signatureOf k) MD_SIG_Out ->
                   declares (Z.lor r (signatureOf k)) MD_SIG_Out).
    { rewrite declares_lor. auto. }
    rewrite (IH _ _ _ _ Inv' H).
    rewrite last_error_cons. destruct (last_error chain); reflexivity.
Qed.

(** X2: what signature negotiation yields when the first kernel's
    signature is not 0: HasInput from the first kernel, HasOutput from the last, and
    every flag disjoint from both from any member. *)
Lemma combined_mask (chain : list Member) (first last : Member) sig :
  hd_error chain = Some first ->
  last_error chain = Some last ->
  Forall validSlot chain ->
  getFusedFuncSig (map fst chain) (map snd chain) = Done (0, sig) ->
  signatureOf first <> 0 ->
  (declares sig MD_SIG_In <-> declares (signatureOf first) MD_SIG_In) /\
  (declares sig MD_SIG_Out <-> declares (signatureOf last) MD_SIG_Out) /\
  (forall flag,
     In flag [MD_SIG_X; MD_SIG_Y; MD_SIG_Z; MD_SIG_Kernel] ->
     (declares sig flag <->
      Exists (fun k => declares (signatureOf k) flag) chain)).
Proof.
  intros Hhd Hlast Hv Hacc Hnz.
  assert (Z0 : forall flag, ~ declares 0 flag)
    by (intros flag; unfold declares; rewrite Z.land_0_l; tauto).
  split; [|split].
  - rewrite (sig_loop_input chain Hv 0 0 0 sig) by (auto; intros; tauto).
    destruct chain as [|k rest]; [discriminate|]. injection Hhd as ->.
    simpl. destruct (Z.eqb_spec (signatureOf first) 0); [contradiction|].
    reflexivity.
  - rewrite (sig_loop_output chain Hv 0 0 0 sig) by (auto; intros; tauto).
    rewrite Hlast. reflexivity.
  - intros flag Hflag.
    assert (Hd : is_uint32 flag /\ Z.land MD_SIG_In flag = 0 /\
                 Z.land MD_SIG_Out flag = 0).
    { destruct Hflag as [<-|[<-|[<-|[<-|[]]]]].
      - split; [apply X_uint32|split; [apply In_X|apply Out_X]].
      - split; [apply Y_uint32|split; [apply In_Y|apply Out_Y]].
      - split; [apply Z_uint32|split; [apply In_Z|apply Out_Z]].
      - split; [apply Kernel_uint32|split; [apply In_Kernel|apply Out_Kernel]]. }
    destruct Hd as (Hu & HI & HO).
    rewrite (sig_loop_flag chain flag Hu HI HO 0 0 0 sig Hv Hacc).
    specialize (Z0 flag). tauto.
Qed.

(** Where the first kernel's signature is 0 the next signature takes its
    place: a second kernel that declares HasInput puts it in the combined
    mask, which the first kernel does not declare. *)
Lemma empty_first_signature_keeps_input (k0 k1 : Member) :
  validSlot k0 -> validSlot k1 -> supported k0 -> supported k1 ->
  signatureOf k0 = 0 -> declares (signatureOf k1) MD_SIG_In ->
  exists sig,
    getFusedFuncSig [fst k0; fst k1] [snd k0; snd k1] = Done (0, sig) /\
    declares sig MD_SIG_In /\ ~ declares (signatureOf k0) MD_SIG_In.
Proof.
  intros V0 V1 S0 S1 E0 D1.
  assert (Hv : Forall validSlot [k0; k1]) by (repeat constructor; auto).
  assert (Hs : Forall supported [k0; k1])
    by (constructor; [assumption|constructor; [assumption|constructor]]).
  destruct (sig_loop_accepts [k0; k1] Hv Hs 0 0 0) as (sig & Hacc).
  exists sig. split; [exact Hacc|]. split.
  - rewrite (sig_loop_input [k0; k1] Hv 0 0 0 sig)
      by (auto; unfold declares; rewrite Z.land_0_l; tauto).
    simpl. rewrite E0. simpl.
    destruct (Z.eqb_spec (signatureOf k1) 0) as [E|]; [|exact D1].
    unfold declares in D1. rewrite E, Z.land_0_l in D1. tauto.
  - rewrite E0. unfold declares. rewrite Z.land_0_l. tauto.
Qed.

End InputOutput.

(** ** The calls of a chain *)

Lemma chainCalls_stops res X Y Z' chain :
  Exists (fun k => res k = None) chain ->
  forall d n, exists calls last,
    chainCalls res X Y Z' chain d n = (calls, false, last).
Proof.
  induction chain as [|k chain IH]; intros Hex d n.
  - inversion Hex.
  - simpl. destruct (res k) as [callee|] eqn:R; [|eauto].
    assert (Hex' : Exists (fun k => res k = None) chain).
    { inversion Hex; subst; auto. congruence. }
    destruct (IH Hex' (Some (Inst n)) (S n)) as (calls & last & ->). eauto.
Qed.

(** A walk that stops early has emitted fewer calls than the chain has
    members; one that finishes, as many. *)
Lemma chainCalls_length res X Y Z' chain :
  forall d n,
    let '(calls, finished, _) := chainCalls res X Y Z' chain d n in
    if finished then length calls = length chain
    else (length calls < length chain)%nat.
Proof.
  induction chain as [|k chain IH]; intros d n; simpl; auto.
  destruct (res k); [|simpl; lia].
  specialize (IH (Some (Inst n)) (S n)).
  destruct (chainCalls res X Y Z' chain (Some (Inst n)) (S n))
    as [[calls fin] last].
  destruct fin; simpl; lia.
Qed.

Lemma chainCalls_resolved res X Y Z' chain :
  Forall (fun k => res k <> None) chain ->
  forall d n, exists calls,
    chainCalls res X Y Z' chain d n =
      (calls, true,
       match chain with
       | [] => d
       | _ :: rest => Some (Inst (n + length rest))
       end) /\
    length calls = length chain /\
    forall i k, nth_error chain i = Some k ->
      exists callee, res k = Some callee /\
        nth_error calls i =
        Some (CallInst callee
                (match i with
                 | O => if isSome d then [d] else []
                 | S j => [Some (Inst (n + j))]
                 end ++
                 (if hasForEachSignatureX (signatureOf k) then [X] else []) ++
                 (if hasForEachSignatureY (signatureOf k) then [Y] else []) ++
                 (if hasForEachSignatureZ (signatureOf k) then [Z'] else []))).
Proof.
  induction chain as [|k chain IH]; intros Hr d n.
  - exists []. simpl. repeat split; auto. intros [|i] k H; discriminate.
  - inversion Hr as [|? ? Hk Hr']; subst.
    destruct (res k) as [callee|] eqn:R; [|congruence].
    destruct (IH Hr' (Some (Inst n)) (S n)) as (calls & E & L & P).
    simpl. rewrite R, E. eexists. split; [|split].
    + f_equal. f_equal. destruct chain; simpl.
      * now rewrite Nat.add_0_r.
      * f_equal. f_equal. lia.
    + simpl. now rewrite L.
    + intros [|i] k' H; simpl in H.
      * injection H as <-. exists callee. split; auto.
      * destruct (P i k' H) as (callee' & R' & N'). exists callee'.
        split; auto. simpl. rewrite N'. f_equal. f_equal. f_equal.
        destruct i; simpl; auto.
        -- now rewrite Nat.add_0_r.
        -- repeat f_equal. lia.
Qed.

Lemma member_flag_kept (chain : list Member) sig k flag :
  is_uint32 flag ->
  Z.land MD_SIG_In flag = 0 -> Z.land MD_SIG_Out flag = 0 ->
  Forall validSlot chain ->
  getFusedFuncSig (map fst chain) (map snd chain) = Done (0, sig) ->
  In k chain ->
  negb (Z.land (signatureOf k) flag =? 0) = true ->
  negb (Z.land sig flag =? 0) = true.
Proof.
  intros Hf HIn HOut Hv Hacc Hk Hd.
  rewrite has_declares in *.
  apply (sig_loop_flag chain flag Hf HIn HOut 0 0 0 sig Hv Hacc).
  right. apply Exists_exists. eauto.
Qed.

Lemma resolve_after_insert m g md k F :
  resolve m k = Some F ->
  resolve (mkModule (functions m ++ [g]) md) k = Some F.
Proof.
  unfold resolve. destruct (nameOf k) as [n|]; [|discriminate].
  unfold Module_getFunction. destruct (String.eqb n ""); [discriminate|].
  simpl. apply findFunction_app_found.
Qed.

Lemma unresolved_after_insert m g md k :
  resolve m k = None -> nameOf k <> Some (fName g) ->
  resolve (mkModule (functions m ++ [g]) md) k = None.
Proof.
  unfold resolve. destruct (nameOf k) as [n|]; [|reflexivity].
  unfold Module_getFunction. destruct (String.eqb n ""); [reflexivity|].
  simpl. intros H Hn. rewrite findFunction_app_new by assumption.
  destruct (String.eqb (fName g) n) eqn:E; auto.
  apply String.eqb_eq in E. congruence.
Qed.

Lemma last_error_exists {A : Type} (l : list A) a :
  hd_error l = Some a -> exists b, last_error l = Some b.
Proof.
  unfold last_error. destruct l as [|x l]; [discriminate|]. intros _.
  destruct (rev (x :: l)) as [|b r] eqn:E; [|simpl; eauto].
  apply (f_equal (@length A)) in E. rewrite length_rev in E. discriminate.
Qed.

Lemma resolved_functionOf m k :
  resolve m k <> None -> exists f, functionOf m k = Some f.
Proof.
  unfold functionOf. destruct (resolve m k) as [F|] eqn:R; [|congruence].
  intros _. unfold resolve in R. destruct (nameOf k) as [n|]; [|discriminate].
  destruct (Module_getFunction_at _ _ _ R) as (f & E & _).
  unfold functionAt in E. destruct (nth_error (functions m) F); [eauto|].
  discriminate.
Qed.

(** C2, as the code has it: in a fused function the first call receives
    the fused input exactly when the combined mask keeps HasInput, every
    later call receives the result of the call before it whatever its own
    mask says, and each call then receives x, y, z for exactly the
    coordinate bits its own kernel declares. *)
Theorem fused_call_arguments {disjoint : SignatureBitsDisjoint bits}
    (chain : list Member) (fusedName : string) (m : Module) (sig : Z)
    (first : Member) (f1 : Function) :
  hd_error chain = Some first ->
  Forall validSlot chain ->
  getFusedFuncSig (map fst chain) (map snd chain) = Done (0, sig) ->
  Forall (fun k => resolve m k <> None) chain ->
  functionOf m first = Some f1 ->
  (hasForEachSignatureIn sig = true -> fArgs f1 <> []) ->
  Module_getFunction m fusedName = None ->
  exists m' fused insts,
    fuseKernels disableAsserts uniqueName (map fst chain) (map snd chain)
      fusedName m = Done (true, m') /\
    functions m' = functions m ++ [fused] /\
    fName fused = fusedName /\
    fBlocks fused = [mkBasicBlock "entry" insts] /\
    length insts = S (length chain) /\
    forall i k, nth_error chain i = Some k ->
      exists callee, resolve m k = Some callee /\
        nth_error insts i =
        Some (CallInst callee
                (runningValue sig i ++ coordinateArgs sig (signatureOf k))).
Proof.
  intros Hhd Hv Hacc Hres O1 Hin Hfresh.
  destruct (last_error_exists _ _ Hhd) as (last & Hlast).
  assert (InN : In last chain) by now apply last_error_In.
  rewrite Forall_forall in Hres.
  destruct (resolved_functionOf m last (Hres _ InN)) as (fN & ON).
  pose proof (getFusedFuncType_resolved chain m sig first last f1 fN
                Hhd Hlast Hv Hacc O1 ON Hin) as HT.
  pose proof (sig_loop_accepted chain 0 0 0 0 sig Hv Hacc eq_refl) as Hsup.
  destruct (fuseKernels_fresh chain fusedName m sig _ Hv Hsup HT Hfresh)
    as (args & Hargs & E).
  cbv zeta in E. cbn [ftReturn] in E.
  set (M3 := mkModule _ (namedMetadata m)) in E.
  assert (Hres3 : Forall (fun k => resolve M3 k <> None) chain).
  { apply Forall_forall. intros k Hk. specialize (Hres k Hk).
    destruct (resolve m k) as [F|] eqn:R; [|congruence].
    unfold M3. now rewrite (resolve_after_insert m _ _ k F R). }
  destruct (chainCalls_resolved (resolve M3) (xValue sig) (yValue sig)
              (zValue sig) chain Hres3 (inputValue sig) 0%nat)
    as (calls & EC & L & P).
  rewrite EC in E. rewrite E.
  eexists. eexists. eexists. split; [reflexivity|].
  cbn [functions]. split; [reflexivity|].
  cbn [fName fBlocks]. split; [reflexivity|]. split; [reflexivity|]. split.
  { rewrite length_app, L. simpl. lia. }
  intros i k Hk.
  assert (Ink : In k chain) by (eapply nth_error_In; eauto).
  destruct (P i k Hk) as (callee & R3 & N).
  exists callee. split.
  - specialize (Hres k Ink).
    destruct (resolve m k) as [F|] eqn:R; [|congruence].
    unfold M3 in R3. rewrite (resolve_after_insert m _ _ k F R) in R3.
    congruence.
  - rewrite nth_error_app1
      by (apply nth_error_Some; rewrite N; discriminate).
    rewrite N. f_equal. f_equal. f_equal.
    + destruct i; [|reflexivity].
      unfold inputValue, runningValue.
      destruct (hasForEachSignatureIn sig); reflexivity.
    + unfold coordinateArgs, xValue, yValue, zValue.
      pose proof (member_flag_kept chain sig k MD_SIG_X X_uint32 In_X Out_X
                    Hv Hacc Ink) as KX.
      pose proof (member_flag_kept chain sig k MD_SIG_Y Y_uint32 In_Y Out_Y
                    Hv Hacc Ink) as KY.
      pose proof (member_flag_kept chain sig k MD_SIG_Z Z_uint32 In_Z Out_Z
                    Hv Hacc Ink) as KZ.
      fold (hasForEachSignatureX (signatureOf k)) in KX.
      fold (hasForEachSignatureX sig) in KX.
      fold (hasForEachSignatureY (signatureOf k)) in KY.
      fold (hasForEachSignatureY sig) in KY.
      fold (hasForEachSignatureZ (signatureOf k)) in KZ.
      fold (hasForEachSignatureZ sig) in KZ.
      destruct (hasForEachSignatureX (signatureOf k));
        [rewrite (KX eq_refl)|];
        (destruct (hasForEachSignatureY (signatureOf k));
          [rewrite (KY eq_refl)|]);
        (destruct (hasForEachSignatureZ (signatureOf k));
          [rewrite (KZ eq_refl)|]); reflexivity.
Qed.

(** The calls of a chain up to its first member without a function. *)
Lemma chainCalls_prefix res X Y Z' before k after :
  Forall (fun k' => res k' <> None) before ->
  res k = None ->
  forall d n, exists calls last,
    chainCalls res X Y Z' (before ++ k :: after) d n = (calls, false, last) /\
    length calls = length before /\
    forall i k', nth_error before i = Some k' ->
      exists callee, res k' = Some callee /\
        nth_error calls i =
        Some (CallInst callee
                (match i with
                 | O => if isSome d then [d] else []
                 | S j => [Some (Inst (n + j))]
                 end ++
                 (if hasForEachSignatureX (signatureOf k') then [X] else []) ++
                 (if hasForEachSignatureY (signatureOf k') then [Y] else []) ++
                 (if hasForEachSignatureZ (signatureOf k') then [Z'] else []))).
Proof.
  intros Hr Hk. induction before as [|k0 before IH]; intros d n.
  - simpl. rewrite Hk. exists [], d. repeat split; auto.
    intros [|i] k' H; discriminate.
  - inversion Hr as [|? ? Hk0 Hr']; subst.
    destruct (res k0) as [callee|] eqn:R; [|congruence].
    destruct (IH Hr' (Some (Inst n)) (S n)) as (calls & last & E & L & P).
    simpl. rewrite R, E. eexists. exists last. split; [reflexivity|]. split.
    + simpl. now rewrite L.
    + intros [|i] k' H; simpl in H.
      * injection H as <-. exists callee. split; auto.
      * destruct (P i k' H) as (callee' & R' & N'). exists callee'.
        split; auto. simpl. rewrite N'. f_equal. f_equal. f_equal.
        destruct i; simpl; auto.
        -- now rewrite Nat.add_0_r.
        -- repeat f_equal. lia.
Qed.

(** C3, as the code has it: in an accepted chain whose first and last
    members resolve, let [k] be the first member without a function in the
    destination module.  Then [fuseKernels] returns failure, the named
    metadata of the module, exported lists included, is as before, and the
    functions that were in the module are untouched; but the fused function
    has been added after them, and its entry block holds exactly the calls
    of the members before [k], each with the arguments of a finished
    fusion, and no terminator. *)
Theorem fuseKernels_unresolved_member {disjoint : SignatureBitsDisjoint bits}
    (before after : list Member) (k : Member)
    (fusedName : string) (m : Module) (sig : Z)
    (first last : Member) (f1 fN : Function) :
  hd_error (before ++ k :: after) = Some first ->
  last_error (before ++ k :: after) = Some last ->
  Forall validSlot (before ++ k :: after) ->
  getFusedFuncSig (map fst (before ++ k :: after))
    (map snd (before ++ k :: after)) = Done (0, sig) ->
  functionOf m first = Some f1 ->
  functionOf m last = Some fN ->
  (hasForEachSignatureIn sig = true -> fArgs f1 <> []) ->
  Module_getFunction m fusedName = None ->
  Forall (fun k' => resolve m k' <> None) before ->
  resolve m k = None ->
  nameOf k <> Some fusedName ->
  exists m' fused insts,
    fuseKernels disableAsserts uniqueName (map fst (before ++ k :: after))
      (map snd (before ++ k :: after)) fusedName m = Done (false, m') /\
    namedMetadata m' = namedMetadata m /\
    operandsOf m' "#rs_export_foreach_name" =
      operandsOf m "#rs_export_foreach_name" /\
    operandsOf m' "#rs_export_foreach" = operandsOf m "#rs_export_foreach" /\
    functions m' = functions m ++ [fused] /\
    fName fused = fusedName /\
    fBlocks fused = [mkBasicBlock "entry" insts] /\
    length insts = length before /\
    forall i k', nth_error before i = Some k' ->
      exists callee, resolve m k' = Some callee /\
        nth_error insts i =
        Some (CallInst callee
                (runningValue sig i ++ coordinateArgs sig (signatureOf k'))).
Proof.
  intros Hhd Hlast Hv Hacc O1 ON Hin Hfresh Hres Hk Hname.
  set (chain := before ++ k :: after) in *.
  pose proof (getFusedFuncType_resolved chain m sig first last f1 fN
                Hhd Hlast Hv Hacc O1 ON Hin) as HT.
  pose proof (sig_loop_accepted chain 0 0 0 0 sig Hv Hacc eq_refl) as Hsup.
  destruct (fuseKernels_fresh chain fusedName m sig _ Hv Hsup HT Hfresh)
    as (args & Hargs & E).
  cbv zeta in E. cbn [ftReturn] in E.
  set (M3 := mkModule _ (namedMetadata m)) in E.
  rewrite Forall_forall in Hres.
  assert (Hres3 : Forall (fun k' => resolve M3 k' <> None) before).
  { apply Forall_forall. intros k' Hk'. specialize (Hres k' Hk').
    destruct (resolve m k') as [F|] eqn:R; [|congruence].
    unfold M3. now rewrite (resolve_after_insert m _ _ k' F R). }
  assert (Hk3 : resolve M3 k = None)
    by (unfold M3; now apply unresolved_after_insert).
  destruct (chainCalls_prefix (resolve M3) (xValue sig) (yValue sig)
              (zValue sig) before k after Hres3 Hk3 (inputValue sig) 0%nat)
    as (calls & lastv & EC & L & P).
  fold chain in EC. rewrite EC in E. rewrite E.
  eexists. eexists. exists calls. split; [reflexivity|].
  cbn [namedMetadata functions fName fBlocks]. unfold operandsOf.
  cbn [namedMetadata].
  do 7 (split; [reflexivity || exact L|]).
  intros i k' Hk'.
  assert (Inb : In k' before) by (eapply nth_error_In; eauto).
  assert (Ink : In k' chain) by (unfold chain; apply in_or_app; now left).
  destruct (P i k' Hk') as (callee & R3 & N).
  exists callee. split.
  - specialize (Hres k' Inb).
    destruct (resolve m k') as [F|] eqn:R; [|congruence].
    unfold M3 in R3. rewrite (resolve_after_insert m _ _ k' F R) in R3.
    congruence.
  - rewrite N. f_equal. f_equal. f_equal.
    + destruct i; [|reflexivity].
      unfold inputValue, runningValue.
      destruct (hasForEachSignatureIn sig); reflexivity.
    + unfold coordinateArgs, xValue, yValue, zValue.
      pose proof (member_flag_kept chain sig k' MD_SIG_X X_uint32 In_X Out_X
                    Hv Hacc Ink) as KX.
      pose proof (member_flag_kept chain sig k' MD_SIG_Y Y_uint32 In_Y Out_Y
                    Hv Hacc Ink) as KY.
      pose proof (member_flag_kept chain sig k' MD_SIG_Z Z_uint32 In_Z Out_Z
                    Hv Hacc Ink) as KZ.
      fold (hasForEachSignatureX (signatureOf k')) in KX.
      fold (hasForEachSignatureX sig) in KX.
      fold (hasForEachSignatureY (signatureOf k')) in KY.
      fold (hasForEachSignatureY sig) in KY.
      fold (hasForEachSignatureZ (signatureOf k')) in KZ.
      fold (hasForEachSignatureZ sig) in KZ.
      destruct (hasForEachSignatureX (signatureOf k'));
        [rewrite (KX eq_refl)|];
        (destruct (hasForEachSignatureY (signatureOf k'));
          [rewrite (KY eq_refl)|]);
        (destruct (hasForEachSignatureZ (signatureOf k'));
          [rewrite (KZ eq_refl)|]); reflexivity.
Qed.

Lemma single_sig (k : Member) :
  validSlot k -> supported k -> is_uint32 (signatureOf k) ->
  getFusedFuncSig [fst k] [snd k] = Done (0, signatureOf k).
Proof.
  intros Hk [Hc Hs] Hu. apply validSlot_kernelAt in Hk.
  destruct (kernelAt_reads _ _ _ _ Hk) as (md & Emd & _ & Ec & Es).
  unfold getFusedFuncSig. simpl. rewrite Emd. simpl. rewrite Ec. simpl.
  assert ((inputCountOf k >? 1) = false) as ->
    by (rewrite Z.gtb_ltb; apply Z.ltb_ge; lia).
  rewrite Es. simpl. rewrite Hs. simpl. f_equal. f_equal.
  assert (E1 : (if negb (hasForEachSignatureIn (signatureOf k))
                then Z.land (signatureOf k) (not32 MD_SIG_In)
                else signatureOf k) = signatureOf k).
  { unfold hasForEachSignatureIn.
    destruct (Z.eqb_spec (Z.land (signatureOf k) MD_SIG_In) 0); simpl; auto.
    now apply land_not32_id. }
  rewrite E1.
  unfold hasForEachSignatureOut.
  destruct (Z.eqb_spec (Z.land (signatureOf k) MD_SIG_Out) 0); simpl; auto.
  now apply land_not32_id.
Qed.

(** C8: a chain of one supported kernel yields a fused function registered
    under the kernel's own signature bits, with the kernel's return type,
    whose body is one call handing every fused parameter, in order, to the
    kernel, followed by the return of the call's result (a void return for
    a kernel that returns nothing). *)
Theorem single_kernel_fusion (k : Member) (fusedName : string) (m : Module)
    (f : Function) :
  validSlot k -> supported k -> is_uint32 (signatureOf k) ->
  functionOf m k = Some f ->
  (hasForEachSignatureIn (signatureOf k) = true -> fArgs f <> []) ->
  Module_getFunction m fusedName = None ->
  exists m' callee args,
    resolve m k = Some callee /\
    fuseKernels disableAsserts uniqueName [fst k] [snd k] fusedName m =
      Done (true, m') /\
    getFusedFuncSig [fst k] [snd k] = Done (0, signatureOf k) /\
    operandsOf m' "#rs_export_foreach" =
      operandsOf m "#rs_export_foreach" ++ [utostr_32 (signatureOf k)] /\
    operandsOf m' "#rs_export_foreach_name" =
      operandsOf m "#rs_export_foreach_name" ++ [fusedName] /\
    map fst args =
      fusedParamTypes (signatureOf k) (map fst (firstn 1 (fArgs f))) /\
    functions m' =
      functions m ++
      [mkFunction fusedName (fReturnType f) args
         [mkBasicBlock "entry"
            [CallInst callee
               (map (fun i => Some (Arg i)) (seq 0 (length args)));
             if isVoidTy (fReturnType f) then RetVoid
             else Ret (Some (Inst 0))]]].
Proof.
  intros Hk Hs Hu Of Hin Hfresh.
  pose proof (single_sig k Hk Hs Hu) as Hacc.
  destruct (functionOf_inv _ _ _ Of) as (callee & R & N).
  assert (Hv : Forall validSlot [k]) by (constructor; [assumption|constructor]).
  assert (Hsup : Forall supported [k])
    by (constructor; [assumption|constructor]).
  pose proof (getFusedFuncType_resolved [k] m (signatureOf k) k k f f
                eq_refl eq_refl Hv Hacc Of Of Hin) as HT.
  destruct (fuseKernels_fresh [k] fusedName m _ _ Hv Hsup HT Hfresh)
    as (args & Hargs & E).
  cbv zeta in E. cbn [ftReturn ftParams map] in E, Hargs.
  cbn [chainCalls] in E.
  rewrite (resolve_after_insert m _ _ k callee R) in E.
  cbn [app] in E.
  exists (mkModule
            (functions m ++
             [mkFunction fusedName (fReturnType f) args
                [mkBasicBlock "entry"
                   [CallInst callee
                      (map (fun i => Some (Arg i)) (seq 0 (length args)));
                    if isVoidTy (fReturnType f) then RetVoid
                    else Ret (Some (Inst 0))]]])
            (addOperandTo
               (addOperandTo (namedMetadata m)
                  "#rs_export_foreach_name" fusedName)
               "#rs_export_foreach" (utostr_32 (signatureOf k)))),
    callee, args.
  split; [exact R|]. split.
  - rewrite E. do 4 f_equal.
    apply (f_equal (@length LType)) in Hargs. rewrite length_map in Hargs.
    rewrite Hargs. unfold fusedParamTypes, inputValue, xValue, yValue,
      zValue, zIndex, yIndex, xIndex.
    destruct (hasForEachSignatureIn (signatureOf k)) eqn:EIn.
    + destruct (fArgs f) as [|a rest]; [now elim (Hin eq_refl)|].
      destruct (hasForEachSignatureX (signatureOf k)),
        (hasForEachSignatureY (signatureOf k)),
        (hasForEachSignatureZ (signatureOf k)); reflexivity.
    + destruct (hasForEachSignatureX (signatureOf k)),
        (hasForEachSignatureY (signatureOf k)),
        (hasForEachSignatureZ (signatureOf k)); reflexivity.
  - split; [exact Hacc|].
    change (operandsOf (mkModule ?fs (addOperandTo (addOperandTo ?md ?a ?b) ?c ?d)))
      with (operandsOf (addNamedOperand (addNamedOperand (mkModule fs md) a b) c d)).
    rewrite !operandsOf_addNamedOperand. cbn [String.eqb Ascii.eqb Bool.eqb].
    repeat split; auto.
Qed.

(** ** What a run leaves in the named metadata *)

Lemma sig_loop_code sources :
  forall slots retSig firstSignature signature error sig,
  getFusedFuncSig_from sources slots retSig firstSignature signature =
    Done (error, sig) ->
  error = 0 \/ error = -1.
Proof.
  induction sources as [|source sources IH];
    intros slots r f s error sig H; simpl in H.
  - injection H as <- _. now left.
  - destruct (hd_error slots) as [slot|]; [|discriminate]. simpl in H.
    destruct (extract source) as [md|]; [|discriminate]. simpl in H.
    destruct (at_slot (getExportForEachInputCountList md) slot) as [c|];
      [|discriminate]. simpl in H.
    destruct (c >? 1); [injection H as <- _; now right|].
    destruct (at_slot (getExportForEachSignatureList md) slot) as [own|];
      [|discriminate]. simpl in H.
    destruct (negb (Z.land own (not32 ExpectedSignatureBits) =? 0));
      [injection H as <- _; now right|].
    eapply IH; eauto.
Qed.

Lemma getFusedFuncType_accepts sources slots m T sig :
  getFusedFuncType disableAsserts sources slots m = Done (Some T, sig) ->
  getFusedFuncSig sources slots = Done (0, sig).
Proof.
  unfold getFusedFuncType. intros H.
  destruct (getFusedFuncSig sources slots) as [[error sig']|] eqn:E;
    [|discriminate].
  cbn [bind] in H.
  destruct (sig_loop_code _ _ _ _ _ _ _ E) as [->| ->].
  - cbn in H.
    repeat match type of H with
    | bind ?o _ = _ => destruct o as [?|]; [cbn [bind] in H|discriminate]
    | (let '(_, _) := ?p in _) = _ => destruct p
    end.
    now injection H as _ <-.
  - discriminate.
Qed.

Lemma metadata_getOrInsertFunction m name T F M :
  getOrInsertFunction m name T = Done (F, M) ->
  namedMetadata M = namedMetadata m.
Proof.
  unfold getOrInsertFunction.
  destruct (Module_getFunction m name) as [F'|].
  - destruct (functionAt m F'); [|discriminate]. cbn [bind].
    destruct (FunctionType_eqb _ T); [|discriminate].
    now injection 1 as _ <-.
  - now injection 1 as _ <-.
Qed.

Lemma metadata_BasicBlock_Create name F M block M' :
  BasicBlock_Create uniqueName name F M = Done (block, M') ->
  namedMetadata M' = namedMetadata M.
Proof.
  unfold BasicBlock_Create. destruct (functionAt M F); [|discriminate].
  cbn [bind]. now injection 1 as _ <-.
Qed.

Lemma metadata_nameArguments sig F M :
  namedMetadata (nameArguments uniqueName sig F M) = namedMetadata M.
Proof.
  unfold nameArguments.
  destruct (hasForEachSignatureIn sig), (hasForEachSignatureX sig),
    (hasForEachSignatureY sig), (hasForEachSignatureZ sig); reflexivity.
Qed.

Lemma metadata_loop F block X Y Z' sources :
  forall slots d M finished d' M',
  fuseKernels_loop F block X Y Z' sources slots d M =
    Done (finished, d', M') ->
  namedMetadata M' = namedMetadata M.
Proof.
  induction sources as [|source sources IH];
    intros slots d M fin d' M' H; simpl in H.
  - now injection H as _ _ <-.
  - destruct (hd_error slots) as [slot|]; [|discriminate]. cbn [deref bind] in H.
    destruct (getFunction M source slot true) as [[own [callee|]]|];
      try discriminate; cbn [bind] in H.
    + destruct own as [own|]; [|discriminate]. cbn [deref bind] in H.
      apply IH in H. exact H.
    + now injection H as _ _ <-.
Qed.

(** C6: every successful [fuseKernels] call appends exactly the fused name
    to the exported-kernel-name list and exactly the decimal string of the
    combined signature to the exported-kernel-signature list; no other named
    node changes, and lists of equal length stay of equal length. *)
Theorem fuseKernels_exports (sources : list Source) (slots : list Z)
    (fusedName : string) (m m' : Module) :
  fuseKernels disableAsserts uniqueName sources slots fusedName m =
    Done (true, m') ->
  exists sig,
    getFusedFuncSig sources slots = Done (0, sig) /\
    operandsOf m' "#rs_export_foreach_name" =
      operandsOf m "#rs_export_foreach_name" ++ [fusedName] /\
    operandsOf m' "#rs_export_foreach" =
      operandsOf m "#rs_export_foreach" ++ [utostr_32 sig] /\
    (forall other, other <> "#rs_export_foreach_name" ->
       other <> "#rs_export_foreach" ->
       getNamedMetadata (namedMetadata m') other =
       getNamedMetadata (namedMetadata m) other) /\
    (length (operandsOf m "#rs_export_foreach_name") =
       length (operandsOf m "#rs_export_foreach") ->
     length (operandsOf m' "#rs_export_foreach_name") =
       length (operandsOf m' "#rs_export_foreach")).
Proof.
  rewrite fuseKernels_stages. intros H.
  destruct (bccAssert disableAsserts _); [|discriminate]. cbn [bind] in H.
  destruct (getFusedFuncType disableAsserts sources slots m)
    as [[[T|] sig]|] eqn:ET; try discriminate. cbn [bind] in H.
  destruct (getOrInsertFunction m fusedName T) as [[F M1]|] eqn:E1;
    [|discriminate]. cbn [bind] in H.
  destruct (BasicBlock_Create uniqueName "entry" F M1) as [[b M2]|] eqn:E2;
    [|discriminate]. cbn [bind] in H.
  unfold fuseKernels_body in H.
  destruct (fuseKernels_loop F b _ _ _ sources slots _ _)
    as [[[fin d] M4]|] eqn:E4; [|discriminate]. cbn [bind] in H.
  destruct fin; [|discriminate]. cbn [negb] in H.
  destruct (functionAt M4 F) as [fn|]; [|discriminate]. cbn [bind] in H.
  injection H as <-.
  apply metadata_getOrInsertFunction in E1.
  apply metadata_BasicBlock_Create in E2.
  apply metadata_loop in E4. rewrite metadata_nameArguments in E4.
  set (M5 := if isVoidTy (fReturnType fn) then CreateRetVoid M4 F b
             else CreateRet M4 F b d).
  assert (E5 : namedMetadata M5 = namedMetadata m).
  { unfold M5. destruct (isVoidTy (fReturnType fn)); simpl; congruence. }
  assert (O5 : forall name, operandsOf M5 name = operandsOf m name).
  { intros name. unfold operandsOf. now rewrite E5. }
  exists sig. split; [eapply getFusedFuncType_accepts; eauto|].
  rewrite !operandsOf_addNamedOperand. cbn [String.eqb Ascii.eqb Bool.eqb].
  rewrite !O5. repeat split.
  - intros other N1 N2. unfold addNamedOperand. cbn [namedMetadata].
    rewrite !getNamedMetadata_addOperandTo, E5.
    destruct (String.eqb_spec "#rs_export_foreach" other); [congruence|].
    destruct (String.eqb_spec "#rs_export_foreach_name" other); congruence.
  - intros L. rewrite !length_app, L. reflexivity.
Qed.

(** X6: no run of [fuseKernels] that returns failure has touched the
    named metadata, exported lists included. *)
Lemma fuseKernels_failure_keeps_metadata (sources : list Source)
    (slots : list Z) (fusedName : string) (m m' : Module) :
  fuseKernels disableAsserts uniqueName sources slots fusedName m =
    Done (false, m') ->
  namedMetadata m' = namedMetadata m.
Proof.
  rewrite fuseKernels_stages. intros H.
  destruct (bccAssert disableAsserts _); [|discriminate]. cbn [bind] in H.
  destruct (getFusedFuncType disableAsserts sources slots m)
    as [[[T|] sig]|] eqn:ET; try discriminate; cbn [bind] in H.
  2:{ now injection H as <-. }
  destruct (getOrInsertFunction m fusedName T) as [[F M1]|] eqn:E1;
    [|discriminate]. cbn [bind] in H.
  destruct (BasicBlock_Create uniqueName "entry" F M1) as [[b M2]|] eqn:E2;
    [|discriminate]. cbn [bind] in H.
  unfold fuseKernels_body in H.
  destruct (fuseKernels_loop F b _ _ _ sources slots _ _)
    as [[[fin d] M4]|] eqn:E4; [|discriminate]. cbn [bind] in H.
  destruct fin; cbn [negb] in H.
  - destruct (functionAt M4 F) as [fn|]; discriminate.
  - injection H as <-.
    apply metadata_getOrInsertFunction in E1.
    apply metadata_BasicBlock_Create in E2.
    apply metadata_loop in E4. rewrite metadata_nameArguments in E4.
    congruence.
Qed.

(** ** renameInvoke *)

Lemma unfound_not_taken fs name :
  findFunction fs name = None ->
  existsb (String.eqb name) (map fName fs) = false.
Proof.
  induction fs as [|f fs IH]; simpl; auto.
  rewrite (String.eqb_sym name (fName f)).
  destruct (String.eqb (fName f) name); [discriminate|].
  destruct (findFunction fs name); [discriminate|]. auto.
Qed.

Lemma pickName_fresh M name :
  Module_getFunction M name = None ->
  pickName uniqueName (map fName (functions M)) name = name.
Proof.
  unfold Module_getFunction, pickName.
  destruct (String.eqb_spec name ""); [congruence|].
  intros H. now rewrite unfound_not_taken.
Qed.

(** C7, as the code has it: for an exported plain function with at least
    one parameter, [renameInvoke] adds a trampoline whose parameter types
    and return type are the original's and whose body is one call of the
    original function on the trampoline's first argument followed by a void
    return, and registers the new name in the exported-function list; the
    trampoline bears the new name when the module has no function of that
    name yet. *)
Theorem renameInvoke_trampoline (source : Source) (slot : Z)
    (newName : string) (module : Module) (md : MetadataExtractor)
    (name : string) (F : nat) (fn : Function) :
  extract source = Some md ->
  0 <= slot ->
  nth_error (getExportFuncNameList md) (Z.to_nat slot) = Some (Some name) ->
  Module_getFunction module name = Some F ->
  nth_error (functions module) F = Some fn ->
  fArgs fn <> [] ->
  exists module' trampoline,
    renameInvoke uniqueName source slot newName module =
      Done (true, module') /\
    functions module' = functions module ++ [trampoline] /\
    (Module_getFunction module newName = None ->
     fName trampoline = newName) /\
    map fst (fArgs trampoline) = map fst (fArgs fn) /\
    fReturnType trampoline = fReturnType fn /\
    fBlocks trampoline =
      [mkBasicBlock "entry" [CallInst F [Some (Arg O)]; RetVoid]] /\
    operandsOf module' "#rs_export_func" =
      operandsOf module "#rs_export_func" ++ [newName].
Proof.
  intros Emd Hslot Hname HF Hfn Hargs.
  unfold renameInvoke, getInvokeFunction. rewrite Emd.
  rewrite (at_slot_nth _ slot (Some name)) by (auto; apply Z.ltb_ge; lia).
  cbn [bind deref]. rewrite HF. cbn [bind deref].
  unfold functionAt at 1. rewrite Hfn. cbn [bind deref].
  unfold Function_Create. cbn [ftReturn ftParams].
  unfold BasicBlock_Create. rewrite functionAt_last.
  cbn [bind fArgs fBlocks].
  rewrite updateFunction_last, pickName_unnamed by reflexivity.
  cbn [fName fReturnType fArgs fBlocks app length].
  rewrite functionAt_last. cbn [bind fArgs].
  destruct (fArgs fn) as [|a rest] eqn:EA; [congruence|].
  cbn [map hd_error deref bind]. unfold CreateCall, CreateRetVoid.
  rewrite !appendInsts_last. cbn [app].
  eexists. eexists. split; [reflexivity|].
  cbn [functions]. split; [reflexivity|].
  cbn [fName fArgs fReturnType fBlocks].
  rewrite operandsOf_addNamedOperand. cbn [String.eqb Ascii.eqb Bool.eqb].
  repeat split.
  - apply pickName_fresh.
  - change ((fst a, "") :: map (fun t => (t, "")) (map fst rest))
      with (map (fun t : LType => (t, "")) (map fst (a :: rest))).
    now rewrite map_fst_unnamed.
Qed.

End FusionTheorems.

(** ** Runs on the concrete module *)

Lemma bcinfo_bits_disjoint : SignatureBitsDisjoint bcinfo_bits.
Proof.
  constructor; try reflexivity; unfold is_uint32; simpl; lia.
Qed.

(** C1, at the input where the code departs from it: a chain whose first
    kernel has the empty signature and whose second kernel declares HasInput
    is accepted with HasInput in the combined mask, although the first
    kernel does not declare it. *)
Theorem getFusedFuncSig_empty_first_signature :
  signatureOf (sourceExample, 0) = 0 /\
  signatureOf (sourceExample, 2) = 35 /\
  hasForEachSignatureIn (bits := bcinfo_bits)
    (signatureOf (sourceExample, 0)) = false /\
  getFusedFuncSig (bits := bcinfo_bits)
    [sourceExample; sourceExample] [0; 2] = Done (0, 35) /\
  hasForEachSignatureIn (bits := bcinfo_bits) 35 = true.
Proof.
  repeat split.
Qed.

Ltac valid_slots :=
  repeat (constructor; [unfold validSlot; vm_compute; discriminate|]);
  constructor.

(** A chain with the two-input kernel of slot 5 is turned down. *)
Lemma fuseKernels_rejects_unsupported_witness :
  fuseKernels (bits := bcinfo_bits) false suffixed
    [sourceExample; sourceExample] [1; 5] "fused" mergedExample =
  Done (false, mergedExample).
Proof.
  apply (fuseKernels_rejects_unsupported (bits := bcinfo_bits) false suffixed
           [(sourceExample, 1); (sourceExample, 5)] "fused" mergedExample).
  - valid_slots.
  - right. left. left. vm_compute. reflexivity.
Defined.

(** The type of the fusion of blur and gray. *)
Lemma getFusedFuncType_shape_witness :
  exists T,
    getFusedFuncType (bits := bcinfo_bits) false
      [sourceExample; sourceExample] [1; 2] mergedExample =
      Done (Some T, 43) /\
    ftReturn T = OtherTy 4 /\
    ftParams T = [OtherTy 4; IntegerTy 32].
Proof.
  destruct (getFusedFuncType_shape (bits := bcinfo_bits) false
              [(sourceExample, 1); (sourceExample, 2)] mergedExample 43
              (sourceExample, 1) (sourceExample, 2)
              (defined "blur" (OtherTy 4) [OtherTy 4; IntegerTy 32])
              (defined "gray" (OtherTy 4) [OtherTy 4]))
    as (T & E & R & P & _).
  - reflexivity.
  - reflexivity.
  - valid_slots.
  - reflexivity.
  - reflexivity.
  - reflexivity.
  - discriminate.
  - exists T. split; [exact E|]. split; [exact R|exact P].
Defined.

(** In the fusion of blur and tint, tint is called on the result of blur
    and on x. *)
Lemma fused_call_arguments_witness :
  exists m' fused insts,
    fuseKernels (bits := bcinfo_bits) false suffixed
      [sourceExample; sourceExample] [1; 3] "fused" mergedExample =
      Done (true, m') /\
    functions m' = functions mergedExample ++ [fused] /\
    fBlocks fused = [mkBasicBlock "entry" insts] /\
    nth_error insts 1 = Some (CallInst 3 [Some (Inst 0); Some (Arg 1)]).
Proof.
  destruct (fused_call_arguments (bits := bcinfo_bits) false suffixed
              (disjoint := bcinfo_bits_disjoint)
              [(sourceExample, 1); (sourceExample, 3)] "fused" mergedExample
              43 (sourceExample, 1)
              (defined "blur" (OtherTy 4) [OtherTy 4; IntegerTy 32]))
    as (m' & fused & insts & E & Fs & _ & B & _ & P).
  - reflexivity.
  - valid_slots.
  - reflexivity.
  - repeat (constructor; [vm_compute; discriminate|]). constructor.
  - reflexivity.
  - discriminate.
  - reflexivity.
  - exists m', fused, insts.
    split; [exact E|]. split; [exact Fs|]. split; [exact B|].
    destruct (P 1%nat (sourceExample, 3) eq_refl) as (callee & R & N).
    vm_compute in R. injection R as <-. exact N.
Defined.

(** C2 fails as stated: tint (slot 3) does not declare HasInput, yet its
    call in the fusion of blur and tint receives the running value, the
    result of the call of blur. *)
Lemma fused_call_gets_value_without_HasInput :
  hasForEachSignatureIn (bits := bcinfo_bits)
    (signatureOf (sourceExample, 3)) = false /\
  exists m',
    fuseKernels (bits := bcinfo_bits) false suffixed
      [sourceExample; sourceExample] [1; 3] "fused" mergedExample =
      Done (true, m') /\
    blockInsts m' 6 0 =
      Some [CallInst 1 [Some (Arg 0); Some (Arg 1)];
            CallInst 3 [Some (Inst 0); Some (Arg 1)];
            Ret (Some (Inst 1))].
Proof.
  split; [reflexivity|].
  eexists. split; [vm_compute; reflexivity|reflexivity].
Qed.

(** With the missing kernel of slot 4 between blur and gray, the run fails,
    leaves the exported lists alone, and leaves the call of blur in the
    entry block of the fused function. *)
Lemma fuseKernels_unresolved_member_witness :
  exists m' fused insts,
    fuseKernels (bits := bcinfo_bits) false suffixed
      [sourceExample; sourceExample; sourceExample] [1; 4; 2] "fused"
      mergedExample = Done (false, m') /\
    namedMetadata m' = namedMetadata mergedExample /\
    functions m' = functions mergedExample ++ [fused] /\
    fBlocks fused = [mkBasicBlock "entry" insts] /\
    length insts = 1%nat /\
    nth_error insts 0 = Some (CallInst 1 [Some (Arg 0); Some (Arg 1)]).
Proof.
  destruct (fuseKernels_unresolved_member (bits := bcinfo_bits) false suffixed
              (disjoint := bcinfo_bits_disjoint)
              [(sourceExample, 1)] [(sourceExample, 2)] (sourceExample, 4)
              "fused" mergedExample 43 (sourceExample, 1) (sourceExample, 2)
              (defined "blur" (OtherTy 4) [OtherTy 4; IntegerTy 32])
              (defined "gray" (OtherTy 4) [OtherTy 4]))
    as (m' & fused & insts & E & MD & _ & _ & Fs & _ & B & L & P).
  - reflexivity.
  - reflexivity.
  - valid_slots.
  - reflexivity.
  - reflexivity.
  - reflexivity.
  - discriminate.
  - reflexivity.
  - repeat (constructor; [vm_compute; discriminate|]). constructor.
  - reflexivity.
  - vm_compute. discriminate.
  - exists m', fused, insts. split; [exact E|]. split; [exact MD|].
    split; [exact Fs|]. split; [exact B|]. split; [exact L|].
    destruct (P 0%nat (sourceExample, 1) eq_refl) as (callee & R & N).
    vm_compute in R. injection R as <-. exact N.
Defined.

(** C3 fails as stated: the same run returns failure with the destination
    module changed; the fused function, its entry block and the call of
    blur are in it. *)
Lemma fuseKernels_failure_leaves_fused_function :
  resolve mergedExample (sourceExample, 4) = None /\
  Module_getFunction mergedExample "fused" = None /\
  exists m',
    fuseKernels (bits := bcinfo_bits) false suffixed
      [sourceExample; sourceExample; sourceExample] [1; 4; 2] "fused"
      mergedExample = Done (false, m') /\
    m' <> mergedExample /\
    Module_getFunction m' "fused" = Some 6%nat /\
    blockInsts m' 6 0 = Some [CallInst 1 [Some (Arg 0); Some (Arg 1)]].
Proof.
  split; [reflexivity|]. split; [reflexivity|].
  eexists. split; [vm_compute; reflexivity|].
  split; [discriminate|]. split; reflexivity.
Qed.

(** The fusion of blur and gray registers "fused" with signature 43. *)
Lemma fuseKernels_exports_witness :
  exists m',
    fuseKernels (bits := bcinfo_bits) false suffixed
      [sourceExample; sourceExample] [1; 2] "fused" mergedExample =
      Done (true, m') /\
    operandsOf m' "#rs_export_foreach_name" =
      ["root"; "blur"; "gray"; "tint"; "fused"] /\
    operandsOf m' "#rs_export_foreach" = ["0"; "43"; "35"; "42"; "43"].
Proof.
  eexists. split; [vm_compute; reflexivity|].
  match goal with
  | |- operandsOf ?m' _ = _ /\ _ =>
      destruct (fuseKernels_exports (bits := bcinfo_bits) false suffixed
                  [sourceExample; sourceExample] [1; 2] "fused"
                  mergedExample m' eq_refl)
        as (sig & S & N & G & _)
  end.
  vm_compute in S. injection S as <-.
  split; [exact N|exact G].
Defined.

(** The trampoline for setup. *)
Lemma renameInvoke_trampoline_witness :
  exists module' trampoline,
    renameInvoke suffixed sourceExample 0 "setup.batch" mergedExample =
      Done (true, module') /\
    functions module' = functions mergedExample ++ [trampoline] /\
    fName trampoline = "setup.batch" /\
    map fst (fArgs trampoline) = [OtherTy 9; IntegerTy 32] /\
    fReturnType trampoline = VoidTy /\
    fBlocks trampoline =
      [mkBasicBlock "entry" [CallInst 4 [Some (Arg O)]; RetVoid]] /\
    operandsOf module' "#rs_export_func" = ["setup"; "reset"; "setup.batch"].
Proof.
  destruct (renameInvoke_trampoline suffixed sourceExample 0 "setup.batch"
              mergedExample
              (mkMetadata
                 [Some "root"; Some "blur"; Some "gray"; Some "tint";
                  Some "ghost"; Some "blend"; Some "ctxt"]
                 [0; 1; 1; 0; 1; 2; 1]
                 [0; 43; 35; 42; 35; 35; 163]
                 [Some "setup"; Some "reset"])
              "setup" 4%nat
              (defined "setup" VoidTy [OtherTy 9; IntegerTy 32]))
    as (module' & trampoline & E & Fs & N & A & R & B & O).
  - reflexivity.
  - lia.
  - reflexivity.
  - reflexivity.
  - reflexivity.
  - discriminate.
  - exists module', trampoline.
    split; [exact E|]. split; [exact Fs|]. split; [exact (N eq_refl)|].
    split; [exact A|]. split; [exact R|]. split; [exact B|exact O].
Defined.

(** C7 fails as stated for a function without parameters: reset is located
    in the module, but the trampoline has no first argument to read. *)
Lemma renameInvoke_without_parameters :
  getInvokeFunction sourceExample 1 mergedExample = Done (Some 5%nat) /\
  nth_error (functions mergedExample) 5 = Some (defined "reset" VoidTy []) /\
  renameInvoke suffixed sourceExample 1 "reset.batch" mergedExample =
    Stuck UndefinedBehaviour.
Proof.
  repeat split.
Qed.

(** The chain of blur alone. *)
Lemma single_kernel_fusion_witness :
  exists m' args,
    fuseKernels (bits := bcinfo_bits) false suffixed
      [sourceExample] [1] "fused" mergedExample = Done (true, m') /\
    map fst args = [OtherTy 4; IntegerTy 32] /\
    functions m' =
      functions mergedExample ++
      [mkFunction "fused" (OtherTy 4) args
         [mkBasicBlock "entry"
            [CallInst 1 [Some (Arg 0); Some (Arg 1)]; Ret (Some (Inst 0))]]] /\
    operandsOf m' "#rs_export_foreach" = ["0"; "43"; "35"; "42"; "43"].
Proof.
  destruct (single_kernel_fusion (bits := bcinfo_bits) false suffixed
              (sourceExample, 1) "fused" mergedExample
              (defined "blur" (OtherTy 4) [OtherTy 4; IntegerTy 32]))
    as (m' & callee & args & R & E & _ & S & _ & A & F).
  - unfold validSlot. vm_compute. discriminate.
  - split; [vm_compute; discriminate|reflexivity].
  - unfold is_uint32. vm_compute. split; [discriminate|reflexivity].
  - reflexivity.
  - discriminate.
  - reflexivity.
  - vm_compute in R. injection R as <-.
    exists m', args. split; [exact E|]. split; [exact A|].
    split; [|exact S].
    rewrite F. assert (L : length args = 2%nat).
    { apply (f_equal (@length LType)) in A. rewrite length_map in A.
      exact A. }
    rewrite L. reflexivity.
Defined.

(** ** bcc_compiler.h *)

(** C9: the pool of address slots has exactly 5 slots from the base address
    0x7e000000, each as large as a 128 KiB code region plus a 128 KiB data
    region, and every occupancy table has one boolean per slot. *)
Theorem mmap_image_pool :
  BCC_MMAP_IMG_COUNT = 5 /\
  BCC_MMAP_IMG_BEGIN = 2113929216 /\
  BCC_MMAP_IMG_CODE_SIZE = 128 * 1024 /\
  BCC_MMAP_IMG_DATA_SIZE = 128 * 1024 /\
  BCC_MMAP_IMG_SIZE = BCC_MMAP_IMG_CODE_SIZE + BCC_MMAP_IMG_DATA_SIZE /\
  BCC_MMAP_IMG_SIZE = 262144 /\
  forall s : Statics,
    Z.of_nat (length (proj1_sig (BccMmapImgAddrTaken s))) = BCC_MMAP_IMG_COUNT.
Proof.
  repeat split.
  intros s. destruct (BccMmapImgAddrTaken s) as [taken L]. simpl.
  rewrite L. reflexivity.
Qed.

Section CompilerTheorems.

Variable initializeBackend : Statics -> Statics.

Lemma GlobalInitialization_sets_flag s :
  GlobalInitialized (GlobalInitialization initializeBackend s) = true.
Proof.
  unfold GlobalInitialization. destruct (GlobalInitialized s) eqn:E; auto.
Qed.

Lemma GlobalInitialization_once s :
  GlobalInitialization initializeBackend
    (GlobalInitialization initializeBackend s) =
  GlobalInitialization initializeBackend s.
Proof.
  unfold GlobalInitialization at 1.
  now rewrite GlobalInitialization_sets_flag.
Qed.

(** C10: [readModule] always runs the guarded global initialization, always
    stores the module pointer it is given, changes nothing else of the
    compiler, and returns non-zero exactly when the retained error string is
    not empty; so with an error left over it reports failure although the
    module has been stored. *)
Theorem readModule_reports_retained_error (module : option Module)
    (this : Compiler) (s : Statics) :
  let '(result, this', s') := readModule initializeBackend module this s in
  s' = GlobalInitialization initializeBackend s /\
  GlobalInitialized s' = true /\
  mModule this' = module /\
  this' = mkCompiler (mError this) (mUseCache this) (mCacheNew this)
            (mCacheFd this) (mPragmas this) module (mHasLinked this) /\
  (result <> 0 <-> mError this <> "") /\
  (mError this <> "" -> result = 1 /\ mModule this' = module).
Proof.
  unfold readModule, hasError. simpl.
  split; [reflexivity|]. split; [apply GlobalInitialization_sets_flag|].
  split; [reflexivity|]. split; [reflexivity|].
  destruct (String.eqb_spec (mError this) ""); simpl.
  - split; [split; congruence|congruence].
  - split; [split; [auto|discriminate]|auto].
Qed.

End CompilerTheorems.

(** * Further properties of the fusion code *)

Lemma nth_error_list_update_other {A : Type} (g : A -> A) l n k :
  k <> n -> nth_error (list_update l n g) k = nth_error l k.
Proof.
  revert n k; induction l as [|a l IH]; intros [|n] [|k] H; simpl; auto;
    try congruence.
Qed.

Lemma land_clear r x N : Z.land r N = 0 -> Z.land (Z.land r x) N = 0.
Proof.
  intros H.
  rewrite <- Z.land_assoc, (Z.land_comm x N), Z.land_assoc, H.
  apply Z.land_0_l.
Qed.

Section Coverage.

Context {bits : MetadataSignatureBitval}.
Variable disableAsserts : bool.
Variable uniqueName : list string -> string -> string.

(** ** Signature negotiation on arbitrary vectors *)

Lemma sig_loop_within sources :
  forall slots retSig firstSignature signature sig,
  getFusedFuncSig_from sources slots retSig firstSignature signature =
    Done (0, sig) ->
  Z.land retSig (not32 ExpectedSignatureBits) = 0 ->
  Z.land sig (not32 ExpectedSignatureBits) = 0.
Proof.
  induction sources as [|source sources IH];
    intros slots r f s sig H Hr; simpl in H.
  - injection H as <-.
    destruct (negb (hasForEachSignatureOut s)),
      (negb (hasForEachSignatureIn f)); auto using land_clear.
  - destruct (hd_error slots) as [slot|]; [|discriminate]. simpl in H.
    destruct (extract source) as [md|]; [|discriminate]. simpl in H.
    destruct (at_slot (getExportForEachInputCountList md) slot) as [c|];
      [|discriminate]. simpl in H.
    destruct (c >? 1); [discriminate|].
    destruct (at_slot (getExportForEachSignatureList md) slot) as [own|];
      [|discriminate]. simpl in H.
    destruct (Z.eqb_spec (Z.land own (not32 ExpectedSignatureBits)) 0)
      as [E|E]; simpl in H; [|discriminate].
    apply (IH _ _ _ _ _ H).
    rewrite Z.land_lor_distr_l, Hr, E. reflexivity.
Qed.

(** X1: the mask that signature negotiation accepts a chain with has no
    bit outside the six supported flags, so a fused kernel is itself a
    kernel that a later fusion accepts. *)
Theorem combined_mask_supported (sources : list Source) (slots : list Z)
    (sig : Z) :
  getFusedFuncSig sources slots = Done (0, sig) ->
  Z.land sig (not32 ExpectedSignatureBits) = 0 /\ ~ hasBitOutside sig.
Proof.
  intros H.
  assert (E : Z.land sig (not32 ExpectedSignatureBits) = 0).
  { apply (sig_loop_within _ _ _ _ _ _ H). apply Z.land_0_l. }
  split; [exact E|]. intros Ho. apply outside_iff in Ho. contradiction.
Qed.

(** X3: signature negotiation accepts the empty chain with the empty mask,
    but [fuseKernels] never returns on it: it stops at the size assertion
    when slots were passed and assertions are compiled in, and reads
    [front()] of the empty vector otherwise. *)
Theorem fuseKernels_empty_chain (slots : list Z) (fusedName : string)
    (m : Module) :
  getFusedFuncSig [] slots = Done (0, 0) /\
  fuseKernels disableAsserts uniqueName [] slots fusedName m =
  Stuck (match slots with
         | [] => UndefinedBehaviour
         | _ :: _ =>
             if disableAsserts then UndefinedBehaviour else AssertionFailed
         end).
Proof.
  split.
  - unfold getFusedFuncSig. simpl.
    destruct (negb (hasForEachSignatureOut 0)),
      (negb (hasForEachSignatureIn 0)); reflexivity.
  - unfold fuseKernels, bccAssert. destruct slots as [|slot slots].
    + simpl. unfold getFusedFuncType, getFusedFuncSig. simpl.
      destruct (negb (hasForEachSignatureOut 0)),
        (negb (hasForEachSignatureIn 0)); reflexivity.
    + simpl. destruct disableAsserts; [|reflexivity].
      unfold getFusedFuncType, getFusedFuncSig. simpl.
      destruct (negb (hasForEachSignatureOut 0)),
        (negb (hasForEachSignatureIn 0)); reflexivity.
Qed.

Lemma sig_loop_short sources :
  forall slots retSig firstSignature signature error sig,
  (length slots < length sources)%nat ->
  getFusedFuncSig_from sources slots retSig firstSignature signature =
    Done (error, sig) ->
  error = -1.
Proof.
  induction sources as [|source sources IH];
    intros slots r f s error sig L H; simpl in *; [lia|].
  destruct slots as [|slot slots]; [discriminate|]. simpl in H, L.
  destruct (extract source) as [md|]; [|discriminate]. simpl in H.
  destruct (at_slot (getExportForEachInputCountList md) slot) as [c|];
    [|discriminate]. simpl in H.
  destruct (c >? 1); [now injection H as <- _|].
  destruct (at_slot (getExportForEachSignatureList md) slot) as [own|];
    [|discriminate]. simpl in H.
  destruct (negb (Z.land own (not32 ExpectedSignatureBits) =? 0));
    [now injection H as <- _|].
  eapply IH; [|exact H]. lia.
Qed.

(** X4: fewer slots than sources.  With assertions compiled in the run
    stops at the size assertion; in any build it never fuses: if it returns
    at all, it returns failure and the module it was given. *)
Theorem fuseKernels_short_slots (sources : list Source) (slots : list Z)
    (fusedName : string) (m : Module) :
  (length slots < length sources)%nat ->
  (disableAsserts = false ->
   fuseKernels disableAsserts uniqueName sources slots fusedName m =
   Stuck AssertionFailed) /\
  (forall b m',
     fuseKernels disableAsserts uniqueName sources slots fusedName m =
       Done (b, m') ->
     b = false /\ m' = m).
Proof.
  intros Hl. split.
  - intros Ha. unfold fuseKernels, bccAssert. rewrite Ha.
    assert (Hn : length sources <> length slots) by lia.
    apply Nat.eqb_neq in Hn. rewrite Hn. reflexivity.
  - intros b m' H. unfold fuseKernels in H.
    destruct (bccAssert disableAsserts _); [|discriminate]. cbn [bind] in H.
    unfold getFusedFuncType in H.
    destruct (getFusedFuncSig sources slots) as [[error sig]|] eqn:E;
      [|discriminate].
    cbn [bind] in H.
    rewrite (sig_loop_short _ _ _ _ _ _ _ Hl E) in H. cbn in H.
    injection H as <- <-. auto.
Qed.

(** ** What a run leaves of the functions of the module *)

Lemma sameOff_refl K M : sameOff K M M.
Proof.
  split; auto.
Qed.

Lemma sameOff_trans K M1 M2 M3 :
  sameOff K M1 M2 -> sameOff K M2 M3 -> sameOff K M1 M3.
Proof.
  intros [N1 F1] [N2 F2]. split; [congruence|].
  intros F HF. rewrite F2, F1; auto.
Qed.

Lemma sameOff_updateFunction K M g :
  (forall f, fName (g f) = fName f) -> sameOff K M (updateFunction M K g).
Proof.
  intros Hg. split; [now apply names_updateFunction|].
  intros F HF. unfold updateFunction. simpl.
  now apply nth_error_list_update_other.
Qed.

Lemma sameOff_appendInsts K M block insts :
  sameOff K M (appendInsts M K block insts).
Proof.
  unfold appendInsts. now apply sameOff_updateFunction.
Qed.

Lemma sameOff_metadata K M name op : sameOff K M (addNamedOperand M name op).
Proof.
  split; auto.
Qed.

Lemma sameOff_BasicBlock_Create name K M block M' :
  BasicBlock_Create uniqueName name K M = Done (block, M') -> sameOff K M M'.
Proof.
  unfold BasicBlock_Create. destruct (functionAt M K); [|discriminate].
  cbn [bind]. injection 1 as _ <-. now apply sameOff_updateFunction.
Qed.

Lemma sameOff_nameArguments sig K M :
  sameOff K M (nameArguments uniqueName sig K M).
Proof.
  unfold nameArguments.
  assert (Step : forall (c : bool) i name M1,
    sameOff K M M1 ->
    sameOff K M (if c then Argument_setName uniqueName M1 K i name else M1)).
  { intros [|] i name M1 H; auto.
    eapply sameOff_trans; [exact H|].
    unfold Argument_setName. now apply sameOff_updateFunction. }
  apply Step, Step, Step, Step, sameOff_refl.
Qed.

Lemma getFunction_names M M' source slot w :
  map fName (functions M) = map fName (functions M') ->
  getFunction M source slot w = getFunction M' source slot w.
Proof.
  intros H. unfold getFunction.
  destruct (deref (extract source)) as [md|]; [|reflexivity]. cbn [bind].
  destruct (at_slot (getExportForEachNameList md) slot) as [[n|]|];
    try reflexivity. cbn [bind].
  now rewrite (Module_getFunction_names M M' n H).
Qed.

Lemma sameOff_loop K block X Y Z' sources :
  forall slots d M finished d' M',
  fuseKernels_loop K block X Y Z' sources slots d M =
    Done (finished, d', M') ->
  sameOff K M M'.
Proof.
  induction sources as [|source sources IH];
    intros slots d M fin d' M' H; simpl in H.
  - injection H as _ _ <-. apply sameOff_refl.
  - destruct (hd_error slots) as [slot|]; [|discriminate].
    cbn [deref bind] in H.
    destruct (getFunction M source slot true) as [[own [callee|]]|];
      try discriminate; cbn [bind] in H.
    + destruct own as [own|]; [|discriminate]. cbn [deref bind] in H.
      apply IH in H. eapply sameOff_trans; [|exact H].
      apply sameOff_appendInsts.
    + injection H as _ _ <-. apply sameOff_refl.
Qed.

Lemma sameOff_body sources slots fusedName sig K block M b M' :
  fuseKernels_body uniqueName sources slots fusedName sig K block M =
    Done (b, M') ->
  sameOff K M M'.
Proof.
  unfold fuseKernels_body. intros H.
  destruct (fuseKernels_loop K block _ _ _ sources slots _ _)
    as [[[fin d] M4]|] eqn:E4; [|discriminate]. cbn [bind] in H.
  apply sameOff_loop in E4.
  assert (S4 : sameOff K M M4).
  { eapply sameOff_trans; [apply sameOff_nameArguments|exact E4]. }
  destruct fin; cbn [negb] in H.
  - destruct (functionAt M4 K) as [fn|]; [|discriminate]. cbn [bind] in H.
    injection H as _ <-.
    eapply sameOff_trans; [exact S4|].
    eapply sameOff_trans; [|apply sameOff_metadata].
    eapply sameOff_trans; [|apply sameOff_metadata].
    unfold CreateRetVoid, CreateRet.
    destruct (isVoidTy (fReturnType fn)); apply sameOff_appendInsts.
  - now injection H as _ <-.
Qed.

Lemma getOrInsertFunction_place m name T K M1 :
  getOrInsertFunction m name T = Done (K, M1) ->
  (exists gs, functions M1 = functions m ++ gs /\ (length gs <= 1)%nat) /\
  (forall F fn, nth_error (functions m) F = Some fn -> fName fn <> name ->
                F <> K).
Proof.
  unfold getOrInsertFunction.
  destruct (Module_getFunction m name) as [F'|] eqn:E.
  - destruct (Module_getFunction_at _ _ _ E) as (fn' & A & N).
    rewrite A. cbn [bind].
    destruct (FunctionType_eqb _ T); [|discriminate].
    injection 1 as <- <-. split.
    + exists []. rewrite app_nil_r. auto.
    + intros F fn HF Hn ->. unfold functionAt in A. rewrite HF in A.
      injection A as ->. contradiction.
  - injection 1 as <- <-. split.
    + eexists. split; [reflexivity|]. simpl. lia.
    + intros F fn HF _ ->.
      assert (length (functions m) < length (functions m))%nat; [|lia].
      apply nth_error_Some. congruence.
Qed.

(** X5: whatever a run of [fuseKernels] returns, every function of the
    module with a name other than the fused name is exactly as it was, every
    name that resolved before resolves to the same function, and at most
    one function has been added. *)
Theorem fuseKernels_keeps_functions (sources : list Source) (slots : list Z)
    (fusedName : string) (m m' : Module) (b : bool) :
  fuseKernels disableAsserts uniqueName sources slots fusedName m =
    Done (b, m') ->
  (forall F fn, nth_error (functions m) F = Some fn ->
     fName fn <> fusedName -> nth_error (functions m') F = Some fn) /\
  (forall name F, Module_getFunction m name = Some F ->
     Module_getFunction m' name = Some F) /\
  (length (functions m) <= length (functions m') <=
   S (length (functions m)))%nat.
Proof.
  rewrite fuseKernels_stages. intros H.
  destruct (bccAssert disableAsserts _); [|discriminate]. cbn [bind] in H.
  destruct (getFusedFuncType disableAsserts sources slots m)
    as [[[T|] sig]|] eqn:ET; try discriminate; cbn [bind] in H.
  2:{ injection H as _ <-. repeat split; auto. }
  destruct (getOrInsertFunction m fusedName T) as [[K M1]|] eqn:E1;
    [|discriminate]. cbn [bind] in H.
  destruct (BasicBlock_Create uniqueName "entry" K M1) as [[blk M2]|] eqn:E2;
    [|discriminate]. cbn [bind] in H.
  apply sameOff_BasicBlock_Create in E2. apply sameOff_body in H.
  destruct (sameOff_trans _ _ _ _ E2 H) as [Names Frame].
  destruct (getOrInsertFunction_place _ _ _ _ _ E1)
    as ((gs & Egs & Lgs) & Place).
  split; [|split].
  - intros F fn HF Hn. rewrite Frame by (eapply Place; eauto).
    rewrite Egs. rewrite nth_error_app1; auto.
    apply nth_error_Some. congruence.
  - intros name F HF. rewrite (Module_getFunction_names m' M1 name Names).
    unfold Module_getFunction in *.
    destruct (String.eqb name ""); [discriminate|].
    rewrite Egs. now apply findFunction_app_found.
  - apply (f_equal (@length string)) in Names. rewrite !length_map in Names.
    rewrite Names, Egs, length_app. lia.
Qed.

(** ** Members without a function *)

(** X7: when the last member of an accepted chain has no function in the
    destination module, while the first has one, [fuseKernels] does not
    return failure.  If the combined mask keeps HasInput and the first
    kernel's function has no parameter, it reads the first parameter of a
    function without parameters; otherwise it stops at the assertion on
    [lastF] when assertions are compiled in, and reads the return type
    through the null pointer when they are not. *)
Theorem unresolved_last_member_stops (chain : list Member)
    (first last : Member) (f1 : Function) (fusedName : string) (m : Module)
    (sig : Z) :
  hd_error chain = Some first ->
  last_error chain = Some last ->
  Forall validSlot chain ->
  getFusedFuncSig (map fst chain) (map snd chain) = Done (0, sig) ->
  functionOf m first = Some f1 ->
  resolve m last = None ->
  fuseKernels disableAsserts uniqueName (map fst chain) (map snd chain)
    fusedName m =
  Stuck (if hasForEachSignatureIn sig &&
            match fArgs f1 with [] => true | _ :: _ => false end
         then UndefinedBehaviour
         else if disableAsserts then UndefinedBehaviour
         else AssertionFailed).
Proof.
  intros Hhd Hlast Hv Hacc O1 RN.
  destruct (functionOf_inv _ _ _ O1) as (F1 & R1 & N1).
  pose proof (sig_loop_accepted chain 0 0 0 0 sig Hv Hacc eq_refl) as Hsup.
  rewrite Forall_forall in Hv, Hsup.
  pose proof (hd_error_In _ _ Hhd) as In1.
  pose proof (last_error_In _ _ Hlast) as InN.
  unfold fuseKernels. rewrite bccAssert_sizes. cbn [bind].
  unfold getFusedFuncType.
  rewrite Hacc, !hd_error_map, !last_error_map, Hhd, Hlast.
  cbn [bind option_map deref fst snd Z.ltb Z.compare].
  rewrite (getFunction_valid m first false (Hv _ In1) (proj1 (Hsup _ In1))).
  rewrite (getFunction_valid m last false (Hv _ InN) (proj1 (Hsup _ InN))).
  rewrite R1, RN. cbn [bind isSome deref]. rewrite bccAssert_true.
  cbn [bind]. unfold functionAt. rewrite N1. cbn [bind deref].
  destruct (hasForEachSignatureIn sig) eqn:EIn; cbn [andb].
  - destruct (fArgs f1) as [|a rest]; [reflexivity|].
    cbn [hd_error deref bind]. unfold bccAssert.
    destruct disableAsserts; reflexivity.
  - cbn [bind]. unfold bccAssert. destruct disableAsserts; reflexivity.
Qed.

(** ** renameInvoke, whenever it returns *)

Lemma renameInvoke_inv source slot newName module b module' :
  renameInvoke uniqueName source slot newName module = Done (b, module') ->
  b = true /\
  exists md name F fn,
    extract source = Some md /\
    at_slot (getExportFuncNameList md) slot = Done (Some name) /\
    Module_getFunction module name = Some F /\
    nth_error (functions module) F = Some fn /\
    fArgs fn <> [] /\
    module' =
    mkModule
      (functions module ++
       [mkFunction (pickName uniqueName (map fName (functions module)) newName)
          (fReturnType fn) (map (fun t => (t, "")) (map fst (fArgs fn)))
          [mkBasicBlock "entry" [CallInst F [Some (Arg O)]; RetVoid]]])
      (addOperandTo (namedMetadata module) "#rs_export_func" newName).
Proof.
  unfold renameInvoke, getInvokeFunction. intros H.
  destruct (extract source) as [md|]; [|discriminate].
  destruct (at_slot (getExportFuncNameList md) slot) as [[name|]|] eqn:En;
    try discriminate.
  cbn [bind deref] in H.
  destruct (Module_getFunction module name) as [F|] eqn:EF; [|discriminate].
  cbn [bind deref] in H.
  unfold functionAt at 1 in H.
  destruct (nth_error (functions module) F) as [fn|] eqn:Efn; [|discriminate].
  cbn [bind deref] in H.
  unfold Function_Create in H. cbn [ftReturn ftParams] in H.
  unfold BasicBlock_Create in H. rewrite functionAt_last in H.
  cbn [bind fArgs fBlocks] in H.
  rewrite updateFunction_last, pickName_unnamed in H by reflexivity.
  cbn [fName fReturnType fArgs fBlocks app length] in H.
  rewrite functionAt_last in H. cbn [bind fArgs] in H.
  destruct (fArgs fn) as [|a rest] eqn:EA; [discriminate|].
  cbn [map hd_error deref bind] in H. unfold CreateCall, CreateRetVoid in H.
  rewrite !appendInsts_last in H. cbn [app] in H.
  injection H as <- <-. split; [reflexivity|].
  exists md, name, F, fn. rewrite EA. repeat split; auto. discriminate.
Qed.

(** X8: [renameInvoke] never returns false.  Whenever it returns, the slot
    named a function of the module with at least one parameter, the
    functions that were in the module are unchanged with one function added
    after them, and of the named metadata only the exported-function list
    has changed, by the new name at its end. *)
Theorem renameInvoke_returns_true (source : Source) (slot : Z)
    (newName : string) (module module' : Module) (b : bool) :
  renameInvoke uniqueName source slot newName module = Done (b, module') ->
  b = true /\
  (exists F fn, getInvokeFunction source slot module = Done (Some F) /\
                nth_error (functions module) F = Some fn /\ fArgs fn <> []) /\
  (exists trampoline, functions module' = functions module ++ [trampoline]) /\
  operandsOf module' "#rs_export_func" =
    operandsOf module "#rs_export_func" ++ [newName] /\
  (forall other, other <> "#rs_export_func" ->
     getNamedMetadata (namedMetadata module') other =
     getNamedMetadata (namedMetadata module) other).
Proof.
  intros H.
  destruct (renameInvoke_inv _ _ _ _ _ _ H)
    as (-> & md & name & F & fn & Emd & En & EF & Efn & EA & ->).
  split; [reflexivity|]. split.
  { exists F, fn. unfold getInvokeFunction. rewrite Emd, En.
    cbn [bind deref]. rewrite EF. auto. }
  split; [eexists; reflexivity|]. split.
  - change (operandsOf (mkModule ?fs (addOperandTo ?md ?a ?c)))
      with (operandsOf (addNamedOperand (mkModule fs md) a c)).
    rewrite operandsOf_addNamedOperand. cbn [String.eqb Ascii.eqb Bool.eqb].
    reflexivity.
  - intros other Hn. cbn [namedMetadata].
    rewrite getNamedMetadata_addOperandTo.
    destruct (String.eqb_spec "#rs_export_func" other); congruence.
Qed.

(** X9: when the new name already names a function of the module,
    [renameInvoke] still registers the new name in the exported-function
    list, but the name keeps resolving to the old function, not to the
    trampoline, which sits after every old function. *)
Theorem renameInvoke_taken_name (source : Source) (slot : Z)
    (newName : string) (module module' : Module) (b : bool) (G : nat) :
  Module_getFunction module newName = Some G ->
  renameInvoke uniqueName source slot newName module = Done (b, module') ->
  Module_getFunction module' newName = Some G /\
  (G < length (functions module))%nat /\
  length (functions module') = S (length (functions module)) /\
  last (operandsOf module' "#rs_export_func") "" = newName.
Proof.
  intros HG H.
  destruct (renameInvoke_inv _ _ _ _ _ _ H)
    as (_ & md & name & F & fn & _ & _ & _ & _ & _ & ->).
  split; [|split; [|split]].
  - unfold Module_getFunction in *. cbn [functions].
    destruct (String.eqb newName ""); [discriminate|].
    now apply findFunction_app_found.
  - unfold Module_getFunction in HG.
    destruct (String.eqb newName ""); [discriminate|].
    destruct (findFunction_nth _ _ _ HG) as (g & Eg & _).
    apply nth_error_Some. congruence.
  - cbn [functions]. rewrite length_app. simpl. lia.
  - change (operandsOf (mkModule ?fs (addOperandTo ?md ?a ?c)))
      with (operandsOf (addNamedOperand (mkModule fs md) a c)).
    rewrite operandsOf_addNamedOperand. cbn [String.eqb Ascii.eqb Bool.eqb].
    apply last_last.
Qed.

(** ** The fused function of a chain whose members all resolve *)

Lemma fresh_success (chain : list Member) (fusedName : string) (m : Module)
    (sig : Z) (first last : Member) (f1 fN : Function) :
  hd_error chain = Some first ->
  last_error chain = Some last ->
  Forall validSlot chain ->
  getFusedFuncSig (map fst chain) (map snd chain) = Done (0, sig) ->
  Forall (fun k => resolve m k <> None) chain ->
  functionOf m first = Some f1 ->
  functionOf m last = Some fN ->
  (hasForEachSignatureIn sig = true -> fArgs f1 <> []) ->
  Module_getFunction m fusedName = None ->
  exists args calls,
    map fst args = fusedParamTypes sig (map fst (firstn 1 (fArgs f1))) /\
    fuseKernels disableAsserts uniqueName (map fst chain) (map snd chain)
      fusedName m =
    Done (true,
      mkModule
        (functions m ++
         [mkFunction fusedName (fReturnType fN) args
            [mkBasicBlock "entry"
               (calls ++
                [if isVoidTy (fReturnType fN) then RetVoid
                 else Ret (Some (Inst (length chain - 1)))])]])
        (addOperandTo
           (addOperandTo (namedMetadata m) "#rs_export_foreach_name" fusedName)
           "#rs_export_foreach" (utostr_32 sig))) /\
    length calls = length chain /\
    forall i k, nth_error chain i = Some k ->
      exists callee, resolve m k = Some callee /\
        nth_error calls i =
        Some (CallInst callee
                (match i with
                 | O => if isSome (inputValue sig) then [inputValue sig] else []
                 | S j => [Some (Inst j)]
                 end ++
                 (if hasForEachSignatureX (signatureOf k)
                  then [xValue sig] else []) ++
                 (if hasForEachSignatureY (signatureOf k)
                  then [yValue sig] else []) ++
                 (if hasForEachSignatureZ (signatureOf k)
                  then [zValue sig] else []))).
Proof.
  intros Hhd Hlast Hv Hacc Hres O1 ON Hin Hfresh.
  pose proof (getFusedFuncType_resolved disableAsserts chain m sig first last
                f1 fN Hhd Hlast Hv Hacc O1 ON Hin) as HT.
  pose proof (sig_loop_accepted chain 0 0 0 0 sig Hv Hacc eq_refl) as Hsup.
  destruct (fuseKernels_fresh disableAsserts uniqueName chain fusedName m sig
              _ Hv Hsup HT Hfresh) as (args & Hargs & E).
  cbv zeta in E. cbn [ftReturn ftParams] in E, Hargs.
  set (M3 := mkModule _ (namedMetadata m)) in E.
  rewrite Forall_forall in Hres.
  assert (Hres3 : Forall (fun k => resolve M3 k <> None) chain).
  { apply Forall_forall. intros k Hk. specialize (Hres k Hk).
    destruct (resolve m k) as [F|] eqn:R; [|congruence].
    unfold M3. now rewrite (resolve_after_insert m _ _ k F R). }
  destruct (chainCalls_resolved (resolve M3) (xValue sig) (yValue sig)
              (zValue sig) chain Hres3 (inputValue sig) 0%nat)
    as (calls & EC & L & P).
  rewrite EC in E.
  exists args, calls. split; [exact Hargs|]. split.
  { rewrite E.
    destruct chain as [|k0 rest]; [discriminate|].
    replace (length (k0 :: rest) - 1)%nat with (0 + length rest)%nat
      by (simpl; lia).
    reflexivity. }
  split; [exact L|].
  intros i k Hk.
  assert (Ink : In k chain) by (eapply nth_error_In; eauto).
  destruct (P i k Hk) as (callee & R3 & N).
  exists callee. split.
  - specialize (Hres k Ink).
    destruct (resolve m k) as [F|] eqn:R; [|congruence].
    unfold M3 in R3. rewrite (resolve_after_insert m _ _ k F R) in R3.
    congruence.
  - rewrite N. destruct i; reflexivity.
Qed.

(** X10: for an accepted chain whose members all resolve, whose first
    kernel's function has a parameter when the combined mask keeps HasInput,
    fused under a name new to the module, [fuseKernels] succeeds and the
    added function bears the fused name, which resolves to it when it is
    not empty; its type is the synthesized one (the last kernel's return
    type, the parameters the combined mask keeps); and its single block is
    one call per member followed by the only terminator, which returns the
    result of the last call, or nothing when the return type is void. *)
Theorem fused_function_shape (chain : list Member) (fusedName : string)
    (m : Module) (sig : Z) (first last : Member) (f1 fN : Function) :
  hd_error chain = Some first ->
  last_error chain = Some last ->
  Forall validSlot chain ->
  getFusedFuncSig (map fst chain) (map snd chain) = Done (0, sig) ->
  Forall (fun k => resolve m k <> None) chain ->
  functionOf m first = Some f1 ->
  functionOf m last = Some fN ->
  (hasForEachSignatureIn sig = true -> fArgs f1 <> []) ->
  Module_getFunction m fusedName = None ->
  exists m' fused calls,
    fuseKernels disableAsserts uniqueName (map fst chain) (map snd chain)
      fusedName m = Done (true, m') /\
    functions m' = functions m ++ [fused] /\
    fName fused = fusedName /\
    (fusedName <> "" ->
     Module_getFunction m' fusedName = Some (length (functions m))) /\
    getFunctionType fused =
      mkFunctionType (fReturnType fN)
        (fusedParamTypes sig (map fst (firstn 1 (fArgs f1)))) /\
    fBlocks fused =
      [mkBasicBlock "entry"
         (calls ++
          [if isVoidTy (fReturnType fN) then RetVoid
           else Ret (Some (Inst (length chain - 1)))])] /\
    length calls = length chain /\
    Forall (fun c => exists callee args, c = CallInst callee args) calls.
Proof.
  intros Hhd Hlast Hv Hacc Hres O1 ON Hin Hfresh.
  destruct (fresh_success chain fusedName m sig first last f1 fN
              Hhd Hlast Hv Hacc Hres O1 ON Hin Hfresh)
    as (args & calls & Hargs & E & L & P).
  eexists. eexists. exists calls. split; [exact E|].
  cbn [functions fName fBlocks]. split; [reflexivity|].
  split; [reflexivity|]. split.
  { intros Hne. unfold Module_getFunction in *. cbn [functions].
    destruct (String.eqb_spec fusedName ""); [contradiction|].
    rewrite findFunction_app_new by assumption.
    cbn [fName]. now rewrite String.eqb_refl. }
  split.
  { unfold getFunctionType. cbn [fReturnType fArgs]. now rewrite Hargs. }
  split; [reflexivity|]. split; [exact L|].
  apply Forall_forall. intros c Hc.
  destruct (In_nth_error _ _ Hc) as (i & Hi).
  assert (Hlt : (i < length chain)%nat).
  { rewrite <- L. apply nth_error_Some. congruence. }
  destruct (nth_error chain i) as [k|] eqn:Ek.
  - destruct (P i k Ek) as (callee & _ & N). rewrite N in Hi.
    injection Hi as <-. eauto.
  - apply nth_error_None in Ek. lia.
Qed.

Lemma parameter_bounds sig (inTy : list LType) (args : list (LType * string)) :
  map fst args = fusedParamTypes sig inTy ->
  (hasForEachSignatureIn sig = true -> length inTy = 1%nat) ->
  (hasForEachSignatureIn sig = true -> (0 < length args)%nat) /\
  (hasForEachSignatureX sig = true -> (xIndex sig < length args)%nat) /\
  (hasForEachSignatureY sig = true -> (yIndex sig < length args)%nat) /\
  (hasForEachSignatureZ sig = true -> (zIndex sig < length args)%nat).
Proof.
  intros Hargs Hin.
  apply (f_equal (@length LType)) in Hargs. rewrite length_map in Hargs.
  rewrite Hargs. unfold fusedParamTypes, zIndex, yIndex, xIndex.
  rewrite !length_app.
  destruct (hasForEachSignatureIn sig);
    [rewrite (Hin eq_refl)|];
    destruct (hasForEachSignatureX sig), (hasForEachSignatureY sig),
      (hasForEachSignatureZ sig); simpl; repeat split; intros; lia || discriminate.
Qed.

(** X11: in that fused function no call has a null operand, and every
    operand of a call is defined where it is used: a parameter the fused
    function has, or the result of an earlier call; every callee is a
    function that was in the module. *)
Theorem fused_calls_defined {disjoint : SignatureBitsDisjoint bits}
    (chain : list Member) (fusedName : string) (m : Module) (sig : Z)
    (first last : Member) (f1 fN : Function) :
  hd_error chain = Some first ->
  last_error chain = Some last ->
  Forall validSlot chain ->
  getFusedFuncSig (map fst chain) (map snd chain) = Done (0, sig) ->
  Forall (fun k => resolve m k <> None) chain ->
  functionOf m first = Some f1 ->
  functionOf m last = Some fN ->
  (hasForEachSignatureIn sig = true -> fArgs f1 <> []) ->
  Module_getFunction m fusedName = None ->
  exists m' fused insts,
    fuseKernels disableAsserts uniqueName (map fst chain) (map snd chain)
      fusedName m = Done (true, m') /\
    functions m' = functions m ++ [fused] /\
    fBlocks fused = [mkBasicBlock "entry" insts] /\
    forall i callee args,
      nth_error insts i = Some (CallInst callee args) ->
      (callee < length (functions m))%nat /\
      Forall (definedOperand (length (fArgs fused)) i) args.
Proof.
  intros Hhd Hlast Hv Hacc Hres O1 ON Hin Hfresh.
  destruct (fresh_success chain fusedName m sig first last f1 fN
              Hhd Hlast Hv Hacc Hres O1 ON Hin Hfresh)
    as (args & calls & Hargs & E & L & P).
  eexists. eexists. eexists. split; [exact E|].
  cbn [functions fBlocks fArgs]. split; [reflexivity|].
  split; [reflexivity|].
  assert (Hin1 : hasForEachSignatureIn sig = true ->
                 length (map fst (firstn 1 (fArgs f1))) = 1%nat).
  { intros EIn. specialize (Hin EIn).
    destruct (fArgs f1); [congruence|reflexivity]. }
  destruct (parameter_bounds sig _ args Hargs Hin1) as (B0 & BX & BY & BZ).
  intros i callee cargs Hi.
  destruct (Nat.lt_ge_cases i (length calls)) as [Hlt|Hge].
  2:{ rewrite nth_error_app2 in Hi by assumption.
      destruct (i - length calls)%nat as [|n]; simpl in Hi.
      - destruct (isVoidTy (fReturnType fN)); discriminate.
      - destruct n; discriminate. }
  rewrite nth_error_app1 in Hi by assumption.
  destruct (nth_error chain i) as [k|] eqn:Ek.
  2:{ apply nth_error_None in Ek. lia. }
  assert (Ink : In k chain) by (eapply nth_error_In; eauto).
  destruct (P i k Ek) as (callee' & R & N). rewrite N in Hi.
  injection Hi as <- <-. split.
  - unfold resolve in R. destruct (nameOf k) as [n|]; [|discriminate].
    unfold Module_getFunction in R.
    destruct (String.eqb n ""); [discriminate|].
    destruct (findFunction_nth _ _ _ R) as (g & Eg & _).
    apply nth_error_Some. congruence.
  - pose proof (member_flag_kept chain sig k MD_SIG_X X_uint32 In_X Out_X
                  Hv Hacc Ink) as KX.
    pose proof (member_flag_kept chain sig k MD_SIG_Y Y_uint32 In_Y Out_Y
                  Hv Hacc Ink) as KY.
    pose proof (member_flag_kept chain sig k MD_SIG_Z Z_uint32 In_Z Out_Z
                  Hv Hacc Ink) as KZ.
    fold (hasForEachSignatureX (signatureOf k)) in KX.
    fold (hasForEachSignatureX sig) in KX.
    fold (hasForEachSignatureY (signatureOf k)) in KY.
    fold (hasForEachSignatureY sig) in KY.
    fold (hasForEachSignatureZ (signatureOf k)) in KZ.
    fold (hasForEachSignatureZ sig) in KZ.
    apply Forall_app; split;
      [|apply Forall_app; split; [|apply Forall_app; split]].
    + destruct i.
      * unfold inputValue.
        destruct (hasForEachSignatureIn sig) eqn:EIn; simpl; [|constructor].
        constructor; [|constructor]. simpl. auto.
      * constructor; [|constructor]. simpl. lia.
    + destruct (hasForEachSignatureX (signatureOf k)); [|constructor].
      unfold xValue. rewrite (KX eq_refl).
      constructor; [|constructor]. simpl. auto.
    + destruct (hasForEachSignatureY (signatureOf k)); [|constructor].
      unfold yValue. rewrite (KY eq_refl).
      constructor; [|constructor]. simpl. auto.
    + destruct (hasForEachSignatureZ (signatureOf k)); [|constructor].
      unfold zValue. rewrite (KZ eq_refl).
      constructor; [|constructor]. simpl. auto.
Qed.

(** ** What a successful run says about the chain *)

Lemma at_slot_inv {A : Type} (l : list A) slot a :
  at_slot l slot = Done a ->
  (slot <? 0) = false /\ nth_error l (Z.to_nat slot) = Some a.
Proof.
  unfold at_slot. destruct (slot <? 0); [discriminate|].
  destruct (nth_error l (Z.to_nat slot)); [|discriminate].
  now injection 1 as ->.
Qed.

Lemma getFunction_inv M source slot own callee :
  getFunction M source slot true = Done (own, Some callee) ->
  validSlot (source, slot) /\ inputCountOf (source, slot) <= 1 /\
  own = Some (signatureOf (source, slot)) /\
  nameOf (source, slot) <> Some "" /\
  resolve M (source, slot) = Some callee.
Proof.
  unfold getFunction. intros H.
  destruct (extract source) as [md|] eqn:Emd; [|discriminate].
  cbn [deref bind] in H.
  destruct (at_slot (getExportForEachNameList md) slot) as [[n|]|] eqn:En;
    try discriminate. cbn [bind] in H.
  destruct (String.eqb_spec n ""); [discriminate|].
  destruct (at_slot (getExportForEachInputCountList md) slot) as [c|] eqn:Ec;
    [|discriminate]. cbn [bind] in H.
  destruct (c >? 1) eqn:Hc; [discriminate|].
  destruct (at_slot (getExportForEachSignatureList md) slot) as [s|] eqn:Es;
    [|discriminate]. cbn [bind] in H.
  injection H as <- HF.
  apply at_slot_inv in En as [Hs En].
  apply at_slot_inv in Ec as [_ Ec].
  apply at_slot_inv in Es as [_ Es].
  assert (K : kernelAt (source, slot) = Some (Some n, c, s)).
  { unfold kernelAt. cbn [fst snd]. now rewrite Emd, Hs, En, Ec, Es. }
  unfold validSlot, inputCountOf, signatureOf, nameOf, resolve, nameOf.
  rewrite K. repeat split; try congruence.
  rewrite Z.gtb_ltb in Hc. apply Z.ltb_ge in Hc. exact Hc.
Qed.

Lemma loop_success_members K block X Y Z' sources :
  forall slots d M d' M',
  fuseKernels_loop K block X Y Z' sources slots d M = Done (true, d', M') ->
  forall i source, nth_error sources i = Some source ->
  exists slot own callee,
    nth_error slots i = Some slot /\
    getFunction M source slot true = Done (own, Some callee).
Proof.
  induction sources as [|source0 sources IH];
    intros slots d M d' M' H i source Hi.
  - destruct i; discriminate.
  - simpl in H. destruct slots as [|slot0 slots]; [discriminate|].
    cbn [hd_error deref bind tl] in H.
    destruct (getFunction M source0 slot0 true) as [[own [callee|]]|] eqn:EG;
      try discriminate; cbn [bind] in H.
    destruct own as [own|]; [|discriminate]. cbn [deref bind] in H.
    destruct i as [|i]; simpl in Hi.
    + injection Hi as <-. exists slot0, (Some own), callee. auto.
    + destruct (IH _ _ _ _ _ H i source Hi) as (slot & o & c & Hs & HG).
      exists slot, o, c. split; [exact Hs|].
      rewrite <- HG. apply getFunction_names.
      symmetry. apply names_appendInsts.
Qed.

Lemma sig_loop_members sources :
  forall slots retSig firstSignature signature sig,
  getFusedFuncSig_from sources slots retSig firstSignature signature =
    Done (0, sig) ->
  forall i source slot,
    nth_error sources i = Some source -> nth_error slots i = Some slot ->
    validSlot (source, slot) ->
    Z.land (signatureOf (source, slot)) (not32 ExpectedSignatureBits) = 0.
Proof.
  induction sources as [|source0 sources IH];
    intros slots r f s sig H i source slot Hi Hs Hv.
  - destruct i; discriminate.
  - simpl in H. destruct slots as [|slot0 slots]; [discriminate|].
    cbn [hd_error deref bind tl] in H.
    destruct (extract source0) as [md|] eqn:Emd; [|discriminate].
    cbn [deref bind] in H.
    destruct (at_slot (getExportForEachInputCountList md) slot0) as [c|];
      [|discriminate]. cbn [bind] in H.
    destruct (c >? 1); [discriminate|].
    destruct (at_slot (getExportForEachSignatureList md) slot0) as [own|]
      eqn:Es; [|discriminate]. cbn [bind] in H.
    destruct (Z.eqb_spec (Z.land own (not32 ExpectedSignatureBits)) 0)
      as [E|E]; simpl in H; [|discriminate].
    destruct i as [|i]; simpl in Hi, Hs.
    + injection Hi as <-. injection Hs as <-.
      apply validSlot_kernelAt in Hv.
      destruct (kernelAt_reads _ _ _ _ Hv) as (md' & Emd' & _ & _ & Es').
      cbn [fst snd] in Emd', Es'. rewrite Emd in Emd'. injection Emd' as <-.
      rewrite Es in Es'. injection Es' as <-. exact E.
    + eapply IH; eauto.
Qed.

Lemma getFusedFuncType_nonempty sources slots m T sig :
  getFusedFuncType disableAsserts sources slots m = Done (Some T, sig) ->
  sources <> [].
Proof.
  unfold getFusedFuncType. intros H ->.
  destruct (getFusedFuncSig [] slots) as [[error sig']|]; [|discriminate].
  cbn [bind] in H. destruct (error <? 0); discriminate.
Qed.

(** X12: a run of [fuseKernels] that returns success had a chain that is
    not empty, and for every member of it a slot that is inside the
    metadata lists, a kernel with at most one input, a non-empty name and
    no bit outside the six supported flags, and a function of that name in
    the module it returns. *)
Theorem fuseKernels_success_members (sources : list Source) (slots : list Z)
    (fusedName : string) (m m' : Module) :
  fuseKernels disableAsserts uniqueName sources slots fusedName m =
    Done (true, m') ->
  sources <> [] /\
  forall i source, nth_error sources i = Some source ->
    exists slot,
      nth_error slots i = Some slot /\
      validSlot (source, slot) /\ supported (source, slot) /\
      nameOf (source, slot) <> Some "" /\
      resolve m' (source, slot) <> None.
Proof.
  rewrite fuseKernels_stages. intros H.
  destruct (bccAssert disableAsserts _); [|discriminate]. cbn [bind] in H.
  destruct (getFusedFuncType disableAsserts sources slots m)
    as [[[T|] sig]|] eqn:ET; try discriminate. cbn [bind] in H.
  destruct (getOrInsertFunction m fusedName T) as [[K M1]|] eqn:E1;
    [|discriminate]. cbn [bind] in H.
  destruct (BasicBlock_Create uniqueName "entry" K M1) as [[blk M2]|] eqn:E2;
    [|discriminate]. cbn [bind] in H.
  split; [eapply getFusedFuncType_nonempty; eauto|].
  pose proof (getFusedFuncType_accepts _ _ _ _ _ _ ET) as Hacc.
  pose proof (sameOff_body _ _ _ _ _ _ _ _ _ H) as [Names _].
  pose proof (sameOff_nameArguments sig K M2) as [Names3 _].
  unfold fuseKernels_body in H.
  destruct (fuseKernels_loop K blk _ _ _ sources slots _ _)
    as [[[fin d] M4]|] eqn:E4; [|discriminate]. cbn [bind] in H.
  destruct fin; [|discriminate].
  intros i source Hi.
  destruct (loop_success_members _ _ _ _ _ _ _ _ _ _ _ E4 i source Hi)
    as (slot & own & callee & Hs & HG).
  destruct (getFunction_inv _ _ _ _ _ HG) as (Hv & Hc & _ & Hn & R).
  exists slot. split; [exact Hs|]. split; [exact Hv|]. split; [|split].
  - split; [exact Hc|].
    eapply (sig_loop_members _ _ _ _ _ _ Hacc); eauto.
  - exact Hn.
  - rewrite (resolve_names m' (nameArguments uniqueName sig K M2))
      by congruence.
    congruence.
Qed.

(** X13: for slots inside the metadata lists, signature negotiation
    accepts a chain exactly when every member is a supported kernel (at most
    one input, no bit outside the six flags); any other chain gets -1. *)
Theorem negotiation_accepts_supported (chain : list Member) :
  Forall validSlot chain ->
  ((exists sig,
      getFusedFuncSig (map fst chain) (map snd chain) = Done (0, sig)) <->
   Forall supported chain) /\
  exists error sig,
    getFusedFuncSig (map fst chain) (map snd chain) = Done (error, sig) /\
    (error = 0 \/ error = -1).
Proof.
  intros Hv.
  assert (Total : forall r f s, exists error sig,
    getFusedFuncSig_from (map fst chain) (map snd chain) r f s =
      Done (error, sig)).
  { induction Hv as [|k chain Hk Hv IH]; intros r f s; [simpl; eauto|].
    apply validSlot_kernelAt in Hk.
    destruct (kernelAt_reads _ _ _ _ Hk) as (md & Emd & _ & Ec & Es).
    simpl. rewrite Emd. simpl. rewrite Ec. simpl.
    destruct (inputCountOf k >? 1); [eauto|].
    rewrite Es. simpl.
    destruct (negb (Z.land (signatureOf k) (not32 ExpectedSignatureBits) =? 0));
      [eauto|]. apply IH. }
  split.
  - split.
    + intros (sig & H).
      exact (sig_loop_accepted chain 0 0 0 0 sig Hv H eq_refl).
    + intros Hs. exact (sig_loop_accepts chain Hv Hs 0 0 0).
  - destruct (Total 0 0 0) as (error & sig & E).
    exists error, sig. split; [exact E|].
    exact (sig_loop_code _ _ _ _ _ _ _ E).
Qed.

End Coverage.

(** ** The error string of a Compiler *)

Lemma c_str_without_NUL (e : string) :
  ~ In Ascii.zero (list_ascii_of_string e) -> c_str e = e.
Proof.
  induction e as [|c e IH]; simpl; intros H; [reflexivity|].
  destruct (Ascii.eqb_spec c Ascii.zero) as [->|N].
  - elim H. now left.
  - rewrite IH; auto.
Qed.

(** X15: after [setError(e)] with a [std::string], [readModule] returns 1
    exactly when [e] is not empty and 0 otherwise, whatever module it is
    given; the module read back is the one given, and the message read back
    through [getErrorMessage] is [e] up to its first NUL, so [e] itself
    when it holds none; a second [readModule] returns what the first
    returned and leaves the message as it was. *)
Theorem readModule_after_setError (initializeBackend : Statics -> Statics)
    (e : string) (module module2 : option Module) (this : Compiler)
    (s : Statics) :
  let '(r, this1, s1) :=
    readModule initializeBackend module (setError e this) s in
  let '(r2, this2, _) := readModule initializeBackend module2 this1 s1 in
  (r = 1 <-> e <> "") /\ (r = 0 <-> e = "") /\
  getErrorMessage this1 = c_str e /\
  (~ In Ascii.zero (list_ascii_of_string e) -> getErrorMessage this1 = e) /\
  getModule this1 = module /\
  r2 = r /\ getErrorMessage this2 = getErrorMessage this1 /\
  getModule this2 = module2.
Proof.
  unfold readModule, setError, hasError, getErrorMessage, getModule. simpl.
  pose proof (c_str_without_NUL e) as C.
  destruct (String.eqb_spec e ""); simpl;
    repeat split; intros; congruence || lia || auto.
Qed.

(** ** Runs on the concrete module, continued *)

Lemma combined_mask_supported_witness :
  Z.land 43 (not32 (ExpectedSignatureBits (bits := bcinfo_bits))) = 0 /\
  ~ hasBitOutside (bits := bcinfo_bits) 43.
Proof.
  apply (combined_mask_supported (bits := bcinfo_bits)
           [sourceExample; sourceExample] [1; 2] 43).
  reflexivity.
Defined.

(** blur then tint: HasInput from blur, HasOutput from tint, x from both. *)
Lemma combined_mask_witness :
  (declares 43 (MD_SIG_In (MetadataSignatureBitval := bcinfo_bits)) <->
   declares (signatureOf (sourceExample, 1)) 1) /\
  (declares 43 (MD_SIG_Out (MetadataSignatureBitval := bcinfo_bits)) <->
   declares (signatureOf (sourceExample, 3)) 2).
Proof.
  destruct (combined_mask (bits := bcinfo_bits)
              (disjoint := bcinfo_bits_disjoint)
              [(sourceExample, 1); (sourceExample, 3)]
              (sourceExample, 1) (sourceExample, 3) 43)
    as (I & O & _).
  - reflexivity.
  - reflexivity.
  - valid_slots.
  - reflexivity.
  - vm_compute. discriminate.
  - split; [exact I|exact O].
Defined.

(** Two sources, one slot, the slot of the two-input kernel: failure is
    returned when assertions are compiled out. *)
Lemma fuseKernels_short_slots_witness :
  fuseKernels (bits := bcinfo_bits) true suffixed
    [sourceExample; sourceExample] [5] "fused" mergedExample =
    Done (false, mergedExample) /\
  fuseKernels (bits := bcinfo_bits) false suffixed
    [sourceExample; sourceExample] [5] "fused" mergedExample =
    Stuck AssertionFailed.
Proof.
  split.
  - destruct (fuseKernels_short_slots (bits := bcinfo_bits) true suffixed
                [sourceExample; sourceExample] [5] "fused" mergedExample)
      as (_ & H); [simpl; lia|].
    destruct (H false mergedExample eq_refl) as (_ & _). reflexivity.
  - destruct (fuseKernels_short_slots (bits := bcinfo_bits) false suffixed
                [sourceExample; sourceExample] [5] "fused" mergedExample)
      as (H & _); [simpl; lia|].
    exact (H eq_refl).
Defined.

(** After the fusion of blur and gray, gray is where and what it was. *)
Lemma fuseKernels_keeps_functions_witness :
  exists m',
    fuseKernels (bits := bcinfo_bits) false suffixed
      [sourceExample; sourceExample] [1; 2] "fused" mergedExample =
      Done (true, m') /\
    nth_error (functions m') 2 = Some (defined "gray" (OtherTy 4) [OtherTy 4]) /\
    Module_getFunction m' "gray" = Some 2%nat.
Proof.
  eexists. split; [vm_compute; reflexivity|].
  match goal with
  | |- nth_error (functions ?m') _ = _ /\ _ =>
      destruct (fuseKernels_keeps_functions (bits := bcinfo_bits) false
                  suffixed [sourceExample; sourceExample] [1; 2] "fused"
                  mergedExample m' true eq_refl) as (Keep & Look & _)
  end.
  split.
  - apply Keep; [reflexivity|discriminate].
  - apply Look. reflexivity.
Defined.

Lemma fuseKernels_failure_keeps_metadata_witness :
  exists m',
    fuseKernels (bits := bcinfo_bits) false suffixed
      [sourceExample; sourceExample; sourceExample] [1; 4; 2] "fused"
      mergedExample = Done (false, m') /\
    namedMetadata m' = namedMetadata mergedExample.
Proof.
  eexists. split; [vm_compute; reflexivity|].
  match goal with
  | |- namedMetadata ?m' = _ =>
      exact (fuseKernels_failure_keeps_metadata (bits := bcinfo_bits) false
               suffixed [sourceExample; sourceExample; sourceExample]
               [1; 4; 2] "fused" mergedExample m' eq_refl)
  end.
Defined.

(** blur then the missing kernel of slot 4: the assertion on [lastF];
    the dummy root then the missing kernel: the first parameter of root is
    read, and root has none. *)
Lemma unresolved_last_member_stops_witness :
  fuseKernels (bits := bcinfo_bits) false suffixed
    [sourceExample; sourceExample] [1; 4] "fused" mergedExample =
  Stuck AssertionFailed /\
  fuseKernels (bits := bcinfo_bits) false suffixed
    [sourceExample; sourceExample] [0; 4] "fused" mergedExample =
  Stuck UndefinedBehaviour.
Proof.
  split.
  - apply (unresolved_last_member_stops (bits := bcinfo_bits) false suffixed
             [(sourceExample, 1); (sourceExample, 4)]
             (sourceExample, 1) (sourceExample, 4)
             (defined "blur" (OtherTy 4) [OtherTy 4; IntegerTy 32])
             "fused" mergedExample 43).
    + reflexivity.
    + reflexivity.
    + valid_slots.
    + reflexivity.
    + reflexivity.
    + reflexivity.
  - apply (unresolved_last_member_stops (bits := bcinfo_bits) false suffixed
             [(sourceExample, 0); (sourceExample, 4)]
             (sourceExample, 0) (sourceExample, 4)
             (defined "root" VoidTy [])
             "fused" mergedExample 35).
    + reflexivity.
    + reflexivity.
    + valid_slots.
    + reflexivity.
    + reflexivity.
    + reflexivity.
Defined.

(** The missing kernel of slot 4, then blur. *)
Lemma unresolved_first_member_asserts_witness :
  fuseKernels (bits := bcinfo_bits) false suffixed
    [sourceExample; sourceExample] [4; 1] "fused" mergedExample =
  Stuck AssertionFailed.
Proof.
  apply (unresolved_first_member_asserts (bits := bcinfo_bits) false suffixed
           [(sourceExample, 4); (sourceExample, 1)] (sourceExample, 4)
           "fused" mergedExample 43).
  - reflexivity.
  - reflexivity.
  - valid_slots.
  - reflexivity.
  - reflexivity.
Defined.

Lemma renameInvoke_returns_true_witness :
  exists module',
    renameInvoke suffixed sourceExample 0 "setup.batch" mergedExample =
      Done (true, module') /\
    operandsOf module' "#rs_export_func" = ["setup"; "reset"; "setup.batch"] /\
    operandsOf module' "#rs_export_foreach" = ["0"; "43"; "35"; "42"].
Proof.
  eexists. split; [vm_compute; reflexivity|].
  match goal with
  | |- operandsOf ?module' _ = _ /\ _ =>
      destruct (renameInvoke_returns_true suffixed sourceExample 0
                  "setup.batch" mergedExample module' true eq_refl)
        as (_ & _ & _ & O & Other)
  end.
  split; [exact O|].
  unfold operandsOf. rewrite Other by discriminate. reflexivity.
Defined.

(** Renaming setup to reset, a name the module has: "reset" still resolves
    to the old function 5, while the trampoline is function 6. *)
Lemma renameInvoke_taken_name_witness :
  exists module',
    renameInvoke suffixed sourceExample 0 "reset" mergedExample =
      Done (true, module') /\
    Module_getFunction module' "reset" = Some 5%nat /\
    length (functions module') = 7%nat /\
    last (operandsOf module' "#rs_export_func") "" = "reset".
Proof.
  eexists. split; [vm_compute; reflexivity|].
  match goal with
  | |- Module_getFunction ?module' _ = _ /\ _ =>
      destruct (renameInvoke_taken_name suffixed sourceExample 0 "reset"
                  mergedExample module' true 5%nat eq_refl eq_refl)
        as (R & _ & L & O)
  end.
  split; [exact R|]. split; [exact L|exact O].
Defined.

Lemma fused_function_shape_witness :
  exists m' fused calls,
    fuseKernels (bits := bcinfo_bits) false suffixed
      [sourceExample; sourceExample] [1; 2] "fused" mergedExample =
      Done (true, m') /\
    functions m' = functions mergedExample ++ [fused] /\
    Module_getFunction m' "fused" = Some 6%nat /\
    getFunctionType fused =
      mkFunctionType (OtherTy 4) [OtherTy 4; IntegerTy 32] /\
    fBlocks fused =
      [mkBasicBlock "entry" (calls ++ [Ret (Some (Inst 1))])] /\
    length calls = 2%nat.
Proof.
  destruct (fused_function_shape (bits := bcinfo_bits) false suffixed
              [(sourceExample, 1); (sourceExample, 2)] "fused" mergedExample
              43 (sourceExample, 1) (sourceExample, 2)
              (defined "blur" (OtherTy 4) [OtherTy 4; IntegerTy 32])
              (defined "gray" (OtherTy 4) [OtherTy 4]))
    as (m' & fused & calls & E & Fs & _ & R & T & B & L & _).
  - reflexivity.
  - reflexivity.
  - valid_slots.
  - reflexivity.
  - repeat (constructor; [vm_compute; discriminate|]). constructor.
  - reflexivity.
  - reflexivity.
  - discriminate.
  - reflexivity.
  - exists m', fused, calls. split; [exact E|]. split; [exact Fs|].
    split; [apply R; discriminate|]. split; [exact T|].
    split; [exact B|exact L].
Defined.

Lemma fused_calls_defined_witness :
  exists m' fused insts,
    fuseKernels (bits := bcinfo_bits) false suffixed
      [sourceExample; sourceExample] [1; 2] "fused" mergedExample =
      Done (true, m') /\
    functions m' = functions mergedExample ++ [fused] /\
    fBlocks fused = [mkBasicBlock "entry" insts] /\
    forall i callee args,
      nth_error insts i = Some (CallInst callee args) ->
      (callee < 6)%nat /\
      Forall (definedOperand (length (fArgs fused)) i) args.
Proof.
  apply (fused_calls_defined (bits := bcinfo_bits) false suffixed
           (disjoint := bcinfo_bits_disjoint)
           [(sourceExample, 1); (sourceExample, 2)] "fused" mergedExample
           43 (sourceExample, 1) (sourceExample, 2)
           (defined "blur" (OtherTy 4) [OtherTy 4; IntegerTy 32])
           (defined "gray" (OtherTy 4) [OtherTy 4])).
  - reflexivity.
  - reflexivity.
  - valid_slots.
  - reflexivity.
  - repeat (constructor; [vm_compute; discriminate|]). constructor.
  - reflexivity.
  - reflexivity.
  - discriminate.
  - reflexivity.
Defined.

Lemma fuseKernels_success_members_witness :
  exists slot,
    nth_error [1; 2] 1 = Some slot /\
    validSlot (sourceExample, slot) /\
    supported (bits := bcinfo_bits) (sourceExample, slot) /\
    nameOf (sourceExample, slot) <> Some "".
Proof.
  assert (E : exists m',
    fuseKernels (bits := bcinfo_bits) false suffixed
      [sourceExample; sourceExample] [1; 2] "fused" mergedExample =
      Done (true, m')).
  { eexists. vm_compute. reflexivity. }
  destruct E as (m' & E).
  destruct (fuseKernels_success_members (bits := bcinfo_bits) false suffixed
              [sourceExample; sourceExample] [1; 2] "fused" mergedExample m'
              E) as (_ & H).
  destruct (H 1%nat sourceExample eq_refl) as (slot & Hs & Hv & Hsup & Hn & _).
  exists slot. split; [exact Hs|]. split; [exact Hv|].
  split; [exact Hsup|exact Hn].
Defined.

(** The chain of blur and gray is accepted; both are supported kernels. *)
Lemma negotiation_accepts_supported_witness :
  (exists sig,
     getFusedFuncSig (bits := bcinfo_bits)
       [sourceExample; sourceExample] [1; 2] = Done (0, sig)) <->
  Forall (supported (bits := bcinfo_bits))
    [(sourceExample, 1); (sourceExample, 2)].
Proof.
  destruct (negotiation_accepts_supported (bits := bcinfo_bits)
              [(sourceExample, 1); (sourceExample, 2)]) as (H & _).
  - valid_slots.
  - exact H.
Defined.
